(** * three-iges-loader: the decoding pipeline of [src/IGESLoader.ts]

    A shallow embedding of [IGESLoader.parse] and of the functions nested in
    it, with the properties of the loader stated over that embedding.

    Conventions of the model.
    - A JavaScript string is the list of its code units; the development
      covers texts whose code units are below 256 (ASCII / Latin-1), so a
      code unit is an [ascii].
    - A JavaScript number is kept by its exact value ([number] below): [NaN],
      the two infinities, or a finite rational.  The engine rounds every
      finite value to binary64; on the integers below 2^53 the operations
      used by the loader are exact, and the statements that involve
      arithmetic are about such values.  The sign of zero is not kept.
    - [console.warn] / [console.log] are a log of [Diag] values, in emission
      order.
    - The scene graph is the host library's; the model keeps what the loader
      hands to its constructors (the points, the position array), not what
      the library then stores or draws. *)

From Stdlib Require Import Ascii String ZArith QArith Qround Lia DecimalString DecimalZ.
From stdpp Require Import base option list.

Local Open Scope Z_scope.
Local Open Scope list_scope.

(** ** Host built-ins *)

Module JS.

(** A string: its code units. *)
Definition str : Type := list ascii.

Definition js (s : string) : str := list_ascii_of_string s.
Arguments js s%_string.

(** WhiteSpace and LineTerminator code units below 256: TAB, LF, VT, FF, CR,
    SP, NBSP.  Used by [trim], [parseInt] and [parseFloat]. *)
Definition isWhiteSpace (c : ascii) : bool :=
  let n := nat_of_ascii c in
  ((9 <=? n) && (n <=? 13) || (n =? 32) || (n =? 160))%nat.

Fixpoint trimStart (s : str) : str :=
  match s with
  | c :: s' => if isWhiteSpace c then trimStart s' else s
  | [] => []
  end.

Definition trimEnd (s : str) : str := rev (trimStart (rev s)).

(** [String.prototype.trim] *)
Definition trim (s : str) : str := trimEnd (trimStart s).

(** [s.substr(start, length)] for a non-negative integer [start] and a
    non-negative integer [length]: both are clamped to the string. *)
Definition substr (s : str) (start len : nat) : str := take len (drop start s).

(** [ToIntegerOrInfinity] of a [parseInt] result used as a [substr] length,
    clamped below at 0: [NaN] counts as 0, a negative length as 0. *)
Definition lengthArg (n : option Z) : nat :=
  match n with
  | Some z => Z.to_nat z
  | None => 0%nat
  end.

(** [s.indexOf(c)] for a one-character needle; [None] stands for -1. *)
Fixpoint indexOf (c : ascii) (s : str) : option nat :=
  match s with
  | [] => None
  | x :: s' => if Ascii.eqb x c then Some 0%nat else S <$> indexOf c s'
  end.

Fixpoint isPrefix (p s : str) : bool :=
  match p, s with
  | [], _ => true
  | a :: p', b :: s' => Ascii.eqb a b && isPrefix p' s'
  | _ :: _, [] => false
  end.

(** [s.split(sep)] for a non-empty separator [sep].  [skip] counts the code
    units of a separator still to be passed over; [cur] is the current piece,
    reversed. *)
Fixpoint splitFrom (sep : str) (skip : nat) (cur : str) (s : str) : list str :=
  match s with
  | [] => [rev cur]
  | c :: s' =>
      match skip with
      | S k => splitFrom sep k cur s'
      | O =>
          if isPrefix sep s
          then rev cur :: splitFrom sep (length sep - 1) [] s'
          else splitFrom sep 0 (c :: cur) s'
      end
  end.

Definition split (sep : str) (s : str) : list str := splitFrom sep 0 [] s.

(** [data.split(/\r?\n/)]: a line ends at LF; a CR right before that LF is
    part of the separator. *)
Definition dropCR (rcur : str) : str :=
  match rcur with
  | c :: r => if Ascii.eqb c "013"%char then r else rcur
  | [] => []
  end.

Fixpoint splitLinesFrom (cur : str) (s : str) : list str :=
  match s with
  | [] => [rev cur]
  | c :: s' =>
      if Ascii.eqb c "010"%char
      then rev (dropCR cur) :: splitLinesFrom [] s'
      else splitLinesFrom (c :: cur) s'
  end.

Definition splitLines (s : str) : list str := splitLinesFrom [] s.

(** [p.replace(/D/g, "e")] *)
Definition replaceD (s : str) : str :=
  map (fun c => if Ascii.eqb c "D"%char then "e"%char else c) s.

(** *** parseInt (radix undefined) *)

(** The value of a digit in radices up to 36. *)
Definition digitValue (c : ascii) : option Z :=
  let n := Z.of_nat (nat_of_ascii c) in
  if (48 <=? n) && (n <=? 57) then Some (n - 48)
  else if (97 <=? n) && (n <=? 122) then Some (n - 87)
  else if (65 <=? n) && (n <=? 90) then Some (n - 55)
  else None.

(** The longest prefix of radix-[R] digits, as digit values. *)
Fixpoint digitsPrefix (R : Z) (s : str) : list Z :=
  match s with
  | [] => []
  | c :: s' =>
      match digitValue c with
      | Some d => if d <? R then d :: digitsPrefix R s' else []
      | None => []
      end
  end.

Definition mathInt (R : Z) (ds : list Z) : Z :=
  fold_left (fun acc d => acc * R + d) ds 0.

Definition stripSign (s : str) : Z * str :=
  match s with
  | c :: r =>
      if Ascii.eqb c "-"%char then (-1, r)
      else if Ascii.eqb c "+"%char then (1, r)
      else (1, s)
  | [] => (1, s)
  end.

Definition stripHexPrefix (s : str) : Z * str :=
  match s with
  | z :: x :: r =>
      if Ascii.eqb z "0"%char && (Ascii.eqb x "x"%char || Ascii.eqb x "X"%char)
      then (16, r) else (10, s)
  | _ => (10, s)
  end.

(** [parseInt(s)]; [None] is [NaN]. *)
Definition parseInt (s : str) : option Z :=
  let '(sign, s1) := stripSign (trimStart s) in
  let '(R, s2) := stripHexPrefix s1 in
  match digitsPrefix R s2 with
  | [] => None
  | ds => Some (sign * mathInt R ds)
  end.

(** *** Numbers *)

Inductive number : Type :=
| NaN
| PInf
| NInf
| Fin (q : Q).

Definition ofZ (z : Z) : number := Fin (z # 1).
Definition ofNat (n : nat) : number := ofZ (Z.of_nat n).

Definition neg (a : number) : number :=
  match a with
  | NaN => NaN
  | PInf => NInf
  | NInf => PInf
  | Fin q => Fin (Qred (- q))
  end.

(** [a + b] *)
Definition add (a b : number) : number :=
  match a, b with
  | NaN, _ | _, NaN => NaN
  | PInf, NInf | NInf, PInf => NaN
  | PInf, _ | _, PInf => PInf
  | NInf, _ | _, NInf => NInf
  | Fin x, Fin y => Fin (Qred (x + y))
  end.

(** [a - b] *)
Definition sub (a b : number) : number := add a (neg b).

(** The sign of a number that is not [NaN]: -1, 0 or 1. *)
Definition sgn (a : number) : Z :=
  match a with
  | NaN => 0
  | PInf => 1
  | NInf => -1
  | Fin q => Z.sgn (Qnum q)
  end.

(** [a * b] *)
Definition mul (a b : number) : number :=
  match a, b with
  | NaN, _ | _, NaN => NaN
  | Fin x, Fin y => Fin (Qred (x * y))
  | _, _ =>
      match sgn a * sgn b with
      | 0 => NaN
      | Zpos _ => PInf
      | Zneg _ => NInf
      end
  end.

(** [a < b] *)
Definition lt (a b : number) : bool :=
  match a, b with
  | NaN, _ | _, NaN => false
  | _, NInf | PInf, _ => false
  | NInf, _ | _, PInf => true
  | Fin x, Fin y => negb (Qle_bool y x)
  end.

Definition isNaN (a : number) : bool :=
  match a with NaN => true | _ => false end.

(** A [parseInt] result as a number. *)
Definition ofInt (n : option Z) : number :=
  match n with
  | Some z => ofZ z
  | None => NaN
  end.

(** [Number.prototype.toString] of a [parseInt] result (decimal for the
    integers below 10^21, which covers every fixed-width field). *)
Definition intToString (n : option Z) : str :=
  match n with
  | Some z => js (NilZero.string_of_int (Z.to_int z))
  | None => js "NaN"
  end.

(** *** parseFloat *)

Definition isDigit (c : ascii) : bool :=
  let n := nat_of_ascii c in ((48 <=? n) && (n <=? 57))%nat.

(** The longest prefix of decimal digits and what follows it. *)
Fixpoint spanDigits (s : str) : list Z * str :=
  match s with
  | c :: s' =>
      if isDigit c
      then let '(ds, r) := spanDigits s' in
           (Z.of_nat (nat_of_ascii c) - 48 :: ds, r)
      else ([], s)
  | [] => ([], [])
  end.

(** ExponentPart, when one is there: an indicator [e] or [E], an optional
    sign and at least one digit; otherwise the exponent is 0. *)
Definition exponentPart (s : str) : Z :=
  match s with
  | c :: r =>
      if Ascii.eqb c "e"%char || Ascii.eqb c "E"%char
      then
        let '(sg, r') := stripSign r in
        match spanDigits r' with
        | ([], _) => 0
        | (ds, _) => sg * mathInt 10 ds
        end
      else 0
  | [] => 0
  end.

(** The value [m * 10^e], in lowest terms. *)
Definition scale10 (m e : Z) : Q :=
  if 0 <=? e then (m * 10 ^ e) # 1
  else Qred (m # Z.to_pos (10 ^ (- e))).

Definition signed (sg : Z) (a : number) : number :=
  if sg <? 0 then neg a else a.

(** [parseFloat(s)]: the value of the longest prefix of the trimmed string
    that is a StrDecimalLiteral, [NaN] when there is none. *)
Definition parseFloat (s : str) : number :=
  let '(sg, s1) := stripSign (trimStart s) in
  if isPrefix (js "Infinity") s1 then signed sg PInf
  else
    let '(ip, r1) := spanDigits s1 in
    match r1 with
    | c :: r2 =>
        if Ascii.eqb c "."%char
        then
          let '(fp, r3) := spanDigits r2 in
          match ip, fp with
          | [], [] => NaN
          | _, _ =>
              signed sg
                (Fin (scale10 (mathInt 10 (ip ++ fp))
                        (exponentPart r3 - Z.of_nat (length fp))))
          end
        else
          match ip with
          | [] => NaN
          | _ => signed sg (Fin (scale10 (mathInt 10 ip) (exponentPart r1)))
          end
    | [] =>
        match ip with
        | [] => NaN
        | _ => signed sg (Fin (scale10 (mathInt 10 ip) 0))
        end
    end.

(** [for (let i = 0; i < bound; i++)]: the number of iterations, [None] when
    the loop has no end (the bound is [Infinity]).  The memory of the engine
    is not modelled: a finite bound, however large, is a finite count. *)
Definition loopCount (bound : number) : option nat :=
  match bound with
  | NaN | NInf => Some 0%nat
  | PInf => None
  | Fin q => Some (Z.to_nat (Qceiling q))
  end.

(** [Number(a[k])] for an array of numbers and a number [k] used as a
    property key: the element when [k] is an integer inside the array,
    [Number(undefined)], which is [NaN], otherwise. *)
Definition arrayIndex (k : number) : option nat :=
  match k with
  | Fin q =>
      let r := Qred q in
      if (Qden r =? 1)%positive && (0 <=? Qnum r) then Some (Z.to_nat (Qnum r))
      else None
  | _ => None
  end.

Definition at_ (a : list number) (i : nat) : number := default NaN (a !! i).

Definition atNum (a : list number) (k : number) : number :=
  match arrayIndex k with
  | Some i => at_ a i
  | None => NaN
  end.

End JS.

Import JS.

(** ** The loader *)

Module IGES.

(** String equality, as [===] and [switch] test it. *)
Fixpoint eqs (a b : str) : bool :=
  match a, b with
  | [], [] => true
  | x :: a', y :: b' => Ascii.eqb x y && eqs a' b'
  | _, _ => false
  end.

(** [o || d] for an optional string: [undefined] and the empty string are
    falsy. *)
Definition orElse (o : option str) (d : str) : str :=
  match o with
  | Some (c :: s) => c :: s
  | _ => d
  end.

(** [parseIgesString]: the Hollerith decoder.  [None] is [undefined].  No
    call inside the [try] can throw, so the [catch] branch is never taken. *)
Definition parseIgesString (s : str) : option str :=
  match indexOf "H"%char s with
  | None => None
  | Some d =>
      let digit := substr s 0 d in
      let value := substr s (d + 1) (lengthArg (parseInt digit)) in
      Some value
  end.

(** [parseIgesFloat] *)
Definition parseIgesFloat (p : str) : number := parseFloat (replaceD p).

(** [EntityAttribute], as [parseDirection] fills it.  A numeric field holds a
    [parseInt] result ([None] is [NaN]). *)
Record EntityAttribute : Type := {
  entityType : option Z;
  entityIndex : option Z;
  igesVersion : option Z;
  lineType : option Z;
  level : option Z;
  view : option Z;
  transMatrix : option Z;
  labelDisp : option Z;
  status : str;
  sequenceNumber : option Z;
  lineWidth : option Z;
  color : option Z;
  paramLine : option Z;
  formNumber : option Z;
  entityName : str;
  entitySub : option Z
}.

(** [class Entity].  The field is [type] in the source. *)
Record Entity : Type := {
  type : str;
  attr : EntityAttribute;
  params : list number
}.

(** The descriptive fields of the Global section; [None] is [undefined]. *)
Record GlobalFields : Type := {
  exportID : option str;
  fileName : option str;
  systemID : option str;
  translateVer : option str;
  integerBits : option str;
  singleExpBits : option str;
  singleMantissaBits : option str;
  doubleExpBits : option str;
  doubleMantissaBits : option str;
  receiveID : option str;
  scale : option str;
  unitFlag : option str;
  unit_ : option str;
  maxStep : option str;
  maxWidth : option str;
  createDate : option str;
  resolution : option str;
  maxValue : option str;
  createUser : option str;
  createOrg : option str;
  igesVer : option str;
  formatCode : option str;
  lastModifiedDate : option str
}.

(** The four counts of the Terminate section. *)
Record LineNums : Type := {
  lineNum_S : option Z;
  lineNum_G : option Z;
  lineNum_D : option Z;
  lineNum_P : option Z
}.

(** [class IGES]: the accumulator the section parsers write to. *)
Record IGES : Type := {
  fieldDelimiter : str;
  termDelimiter : str;
  entities : list Entity;
  comment : option str;
  globals : option GlobalFields;
  lineNums : option LineNums
}.

(** [new IGES()] *)
Definition newIGES : IGES :=
  {| fieldDelimiter := js ",";
     termDelimiter := js ";";
     entities := [];
     comment := None;
     globals := None;
     lineNums := None |}.

Definition parseStart (iges : IGES) (data : str) : IGES :=
  {| fieldDelimiter := fieldDelimiter iges;
     termDelimiter := termDelimiter iges;
     entities := entities iges;
     comment := Some data;
     globals := globals iges;
     lineNums := lineNums iges |}.

(** [data[0] !== ","] *)
Definition firstIsNotComma (data : str) : bool :=
  match data with
  | c :: _ => negb (Ascii.eqb c ","%char)
  | [] => true
  end.

(** [fields[i] ?? ""] *)
Definition fieldOrEmpty (fields : list str) (i : nat) : str :=
  default [] (fields !! i).

Definition parseGlobal (iges : IGES) (data : str) : IGES :=
  let fd :=
    if firstIsNotComma data then orElse (parseIgesString data) (js ",")
    else fieldDelimiter iges in
  let fields0 := split fd data in
  let fields := if firstIsNotComma data then drop 1 fields0 else fields0 in
  let hol i := parseIgesString (fieldOrEmpty fields i) in
  {| fieldDelimiter := fd;
     termDelimiter := orElse (hol 1%nat) (js ";");
     entities := entities iges;
     comment := comment iges;
     globals := Some
       {| exportID := hol 2%nat;
          fileName := hol 3%nat;
          systemID := hol 4%nat;
          translateVer := hol 5%nat;
          integerBits := fields !! 6%nat;
          singleExpBits := fields !! 7%nat;
          singleMantissaBits := fields !! 8%nat;
          doubleExpBits := fields !! 9%nat;
          doubleMantissaBits := fields !! 10%nat;
          receiveID := hol 11%nat;
          scale := fields !! 12%nat;
          unitFlag := fields !! 13%nat;
          unit_ := hol 14%nat;
          maxStep := fields !! 15%nat;
          maxWidth := fields !! 16%nat;
          createDate := hol 17%nat;
          resolution := fields !! 18%nat;
          maxValue := fields !! 19%nat;
          createUser := hol 20%nat;
          createOrg := hol 21%nat;
          igesVer := fields !! 22%nat;
          formatCode := fields !! 23%nat;
          lastModifiedDate := hol 24%nat |};
     lineNums := lineNums iges |}.

(** The attribute assignments of one [parseDirection] iteration, for the
    window [item]. *)
Definition decodeAttr (item : str) : EntityAttribute :=
  {| entityType := parseInt (substr item 0 8);
     entityIndex := parseInt (substr item 8 8);
     igesVersion := parseInt (substr item 16 8);
     lineType := parseInt (substr item 24 8);
     level := parseInt (substr item 32 8);
     view := parseInt (substr item 40 8);
     transMatrix := parseInt (substr item 48 8);
     labelDisp := parseInt (substr item 56 8);
     status := substr item 64 8;
     sequenceNumber := parseInt (substr item 73 7);
     lineWidth := parseInt (substr item 88 8);
     color := parseInt (substr item 96 8);
     paramLine := parseInt (substr item 104 8);
     formNumber := parseInt (substr item 112 8);
     entityName := trim (substr item 136 8);
     entitySub := parseInt (substr item 144 8) |}.

(** [new Entity()] followed by the assignments to its [attr]: the
    constructor sets [type] from the default attribute [{ entityType: 0 }],
    and the assignments that follow write to [attr] only. *)
Definition newEntityType : str := intToString (Some 0).

Definition directionEntity (item : str) : Entity :=
  {| type := newEntityType; attr := decodeAttr item; params := [] |}.

(** The windows [data.substr(i, 160)] for [i = 0, 160, 320, ...] while
    [i < data.length]. *)
Definition windows (data : str) : list str :=
  map (fun j => substr data (j * 160) 160)
      (seq 0 ((length data + 159) / 160)).

Definition setEntities (iges : IGES) (es : list Entity) : IGES :=
  {| fieldDelimiter := fieldDelimiter iges;
     termDelimiter := termDelimiter iges;
     entities := es;
     comment := comment iges;
     globals := globals iges;
     lineNums := lineNums iges |}.

Definition parseDirection (iges : IGES) (data : str) : IGES :=
  setEntities iges (entities iges ++ map directionEntity (windows data)).

(** [params.pop()] *)
Definition pop {A} (l : list A) : list A := take (length l - 1) l.

(** The body of the [parseParameter] loop at index [i]. *)
Definition assignParams (splitParams : list (list str)) (es : list Entity)
    (i : nat) : list Entity :=
  match es !! i with
  | Some entity =>
      match splitParams !! i with
      | Some paramArray =>
          <[ i := {| type := orElse (head paramArray) [];
                     attr := attr entity;
                     params := map parseIgesFloat (tail paramArray) |} ]> es
      | None => es
      end
  | None => es
  end.

Definition parseParameter (iges : IGES) (data : str) : IGES :=
  let params := pop (split (js ";") data) in
  let splitParams := map (split (js ",")) params in
  setEntities iges
    (fold_left (assignParams splitParams) (seq 0 (length splitParams))
       (entities iges)).

(** [this.lineNum_D && this.entities.length !== this.lineNum_D / 2]: a count
    that is [NaN] or 0 is falsy; the quotient is exact, so an odd count
    equals no length. *)
Definition inconsistent (n : nat) (lineNumD : option Z) : bool :=
  match lineNumD with
  | Some d => negb (d =? 0) && negb (2 * Z.of_nat n =? d)
  | None => false
  end.

Definition errInconsistent : str := js "ERROR: Inconsistent entity count".

(** [parseTerminate]: [inl] is the thrown error. *)
Definition parseTerminate (iges : IGES) (data : str) : str + IGES :=
  let nums :=
    {| lineNum_S := parseInt (substr data 1 7);
       lineNum_G := parseInt (substr data 9 7);
       lineNum_D := parseInt (substr data 17 7);
       lineNum_P := parseInt (substr data 25 7) |} in
  if inconsistent (length (entities iges)) (lineNum_D nums)
  then inl errInconsistent
  else inr {| fieldDelimiter := fieldDelimiter iges;
              termDelimiter := termDelimiter iges;
              entities := entities iges;
              comment := comment iges;
              globals := globals iges;
              lineNums := Some nums |}.


(** *** Section splitter *)

Inductive Diag : Type :=
| ShortLine (i len : nat) (head50 : str)
| UnknownSection (i : nat) (currentSection : str)
| PathUnsupportedForm (form : option Z)
| LineUnsupportedForm (form : option Z)
| TransMatrixUnsupportedForm (form : option Z)
| UnknownEntityType (type : str).

Record Sections : Type := {
  startSec : str;
  globalSec : str;
  dirSec : str;
  paramSec : str;
  terminateSec : str
}.

Definition noSections : Sections :=
  {| startSec := []; globalSec := []; dirSec := []; paramSec := [];
     terminateSec := [] |}.

(** The [switch (currentSection)] of the line loop, for a line of at least
    73 code units already cut to 80; [None] is the [default] branch. *)
Definition appendLine (secs : Sections) (currentSection line : str)
    : option Sections :=
  if eqs currentSection (js "S") then
    Some {| startSec := startSec secs ++ trim (substr line 0 72);
            globalSec := globalSec secs; dirSec := dirSec secs;
            paramSec := paramSec secs; terminateSec := terminateSec secs |}
  else if eqs currentSection (js "G") then
    Some {| startSec := startSec secs;
            globalSec := globalSec secs ++ trim (substr line 0 72);
            dirSec := dirSec secs;
            paramSec := paramSec secs; terminateSec := terminateSec secs |}
  else if eqs currentSection (js "D") then
    Some {| startSec := startSec secs; globalSec := globalSec secs;
            dirSec := dirSec secs ++ line;
            paramSec := paramSec secs; terminateSec := terminateSec secs |}
  else if eqs currentSection (js "P") then
    Some {| startSec := startSec secs; globalSec := globalSec secs;
            dirSec := dirSec secs;
            paramSec := paramSec secs ++ trim (substr line 0 64);
            terminateSec := terminateSec secs |}
  else if eqs currentSection (js "T") then
    Some {| startSec := startSec secs; globalSec := globalSec secs;
            dirSec := dirSec secs; paramSec := paramSec secs;
            terminateSec := terminateSec secs ++ trim (substr line 0 72) |}
  else None.

(** The line loop of [parseIges], from index [i] on: the section buffers and
    the warnings, in order. *)
Fixpoint readLines (i : nat) (lines : list str) (secs : Sections)
    : Sections * list Diag :=
  match lines with
  | [] => (secs, [])
  | line :: rest =>
      if (length line <? 73)%nat then
        let '(secs', log) := readLines (S i) rest secs in
        (secs', ShortLine i (length line) (take 50 line) :: log)
      else
        let currentSection := substr line 72 1 in
        match appendLine secs currentSection (substr line 0 80) with
        | Some secs1 => readLines (S i) rest secs1
        | None =>
            let '(secs', log) := readLines (S i) rest secs in
            (secs', UnknownSection i currentSection :: log)
        end
  end.

(** *** Geometry synthesizer *)

Definition Vector2 : Type := number * number.
Definition Vector3 : Type := number * number * number.

(** The objects added to the group.  Every one of them is placed at the
    origin and rotated by -PI/2 about the x axis; the lines use a
    [LineBasicMaterial] of colour 0x0000ff and the points a [PointsMaterial]
    of size 5.
    - [Line points]: [new Line] over [setFromPoints(points)];
    - [ArcLine aX aY startVector endVector]: [new Line] over the 50-division
      sampling of [new EllipseCurve(aX, aY, 1, 1, startVector.angle(),
      endVector.angle(), false, 0)];
    - [Points position]: [new Points] over the position array handed to
      [new Float32BufferAttribute(position, 3)]. *)
Inductive Object3D : Type :=
| Line (points : list Vector3)
| ArcLine (aX aY : number) (startVector endVector : Vector2)
| Points (position : list number).

(** What a piece of the synthesizer does: the objects it adds to [geometry]
    and the lines it writes to the console, both in order; [None] when it
    never ends. *)
Definition Draw : Type := option (list Object3D * list Diag).

(** [geometry.add(mesh)] *)
Definition geometryAdd (mesh : Object3D) : Draw := Some ([mesh], []).

(** [console.log(...)] *)
Definition consoleLog (d : Diag) : Draw := Some ([], [d]).

Definition skip : Draw := Some ([], []).

(** [a] and then [b]; [b] is not reached when [a] never ends. *)
Definition andThen (a b : Draw) : Draw :=
  match a with
  | Some (added, logs) =>
      match b with
      | Some (added', logs') => Some (added ++ added', logs ++ logs')
      | None => None
      end
  | None => None
  end.

Notation "a ;; b" := (andThen a b) (at level 100, b at level 200, right associativity).

(** [for (let i = 0; i < bound; i++) points.push(f(i))], then the
    continuation on the points; no continuation when the loop never ends. *)
Definition forPoints (bound : number) (f : nat -> Vector3)
    (k : list Vector3 -> Draw) : Draw :=
  match loopCount bound with
  | Some n => k (map f (seq 0 n))
  | None => None
  end.

Section Handlers.

Variable entity : Entity.

Let entityAttr := attr entity.
Let entityParams := params entity.

(** [Number(entityParams[i])] for a literal or loop-counter index *)
Let P (i : nat) : number := at_ entityParams i.

(** [entityAttr.formNumber?.toString()] *)
Let form : str := intToString (formNumber entityAttr).

Definition drawCArc : Draw :=
  let startVector := (sub (P 3) (P 1), sub (P 4) (P 2)) in
  let endVector := (sub (P 5) (P 1), sub (P 6) (P 2)) in
  geometryAdd (ArcLine (P 1) (P 2) startVector endVector).

Definition drawCCurve : Draw := skip.

Definition drawPath : Draw :=
  if eqs form (js "12") then
    forPoints (P 1) (fun i => (P (2 + 3 * i), P (3 + 3 * i), P (4 + 3 * i)))
      (fun points => geometryAdd (Line points))
  else if eqs form (js "40") then
    forPoints (P 1) (fun i => (P (3 + 2 * i), P (4 + 2 * i), P 2))
      (fun points => geometryAdd (Line points))
  else if eqs form (js "63") then
    forPoints (P 1) (fun i => (P (3 + 2 * i), P (4 + 2 * i), ofZ 0))
      (fun points => geometryAdd (Line points))
  else
    consoleLog (PathUnsupportedForm (formNumber entityAttr)) ;;
    geometryAdd (Line []).

Definition drawPlane : Draw := skip.

Definition drawLine : Draw :=
  let twoPoints := [(P 0, P 1, P 2); (P 3, P 4, P 5)] in
  if eqs form (js "0") || eqs form (js "2") then
    geometryAdd (Line twoPoints)
  else if isNaN (ofInt (formNumber entityAttr)) then
    geometryAdd (Line twoPoints)
  else
    consoleLog (LineUnsupportedForm (formNumber entityAttr)) ;;
    geometryAdd (Line []).

Definition drawPoint : Draw :=
  geometryAdd (Points [P 0; P 1; P 2]).

Definition drawRSurface : Draw := skip.
Definition drawTCylinder : Draw := skip.

Definition drawTransMatrix : Draw :=
  if eqs form (js "0") then skip
  else consoleLog (TransMatrixUnsupportedForm (formNumber entityAttr)).

Definition drawRBSplineCurve : Draw :=
  let K := P 0 in
  let M := P 1 in
  let N := sub (add (ofZ 1) K) M in
  let A := add N (mul (ofZ 2) M) in
  let at3 (i : nat) (c : Z) : number :=
    atNum entityParams
      (add (add (add (mul (ofNat i) (ofZ 3)) (ofZ c)) A) K) in
  if eqs form (js "0") || eqs form (js "1") then
    forPoints (add K (ofZ 1)) (fun i => (at3 i 8, at3 i 9, at3 i 10))
      (fun points => geometryAdd (Line points))
  else
    geometryAdd (Line []).

Definition drawRBSplineSurface : Draw := skip.
Definition drawCurveOnPSurface : Draw := skip.
Definition drawTPSurface : Draw := skip.
Definition drawGeneralNote : Draw := skip.
Definition drawLeaderArrow : Draw := skip.
Definition drawLinearDimension : Draw := skip.
Definition drawColor : Draw := skip.
Definition drawAInstance : Draw := skip.
Definition propertyEntity : Draw := skip.

(** The [switch (entity.type)] of the entity loop. *)
Definition handlers : list (string * Draw) :=
  [ ("100", drawCArc); ("102", drawCCurve); ("106", drawPath);
    ("108", drawPlane); ("110", drawLine); ("116", drawPoint);
    ("120", drawRSurface); ("122", drawTCylinder); ("124", drawTransMatrix);
    ("126", drawRBSplineCurve); ("128", drawRBSplineSurface);
    ("142", drawCurveOnPSurface); ("144", drawTPSurface);
    ("212", drawGeneralNote); ("214", drawLeaderArrow);
    ("216", drawLinearDimension); ("314", drawColor); ("402", drawAInstance);
    ("406", propertyEntity) ]%string.

Fixpoint switch (cases : list (string * Draw)) (dflt : Draw) (t : str) : Draw :=
  match cases with
  | [] => dflt
  | (label, h) :: rest => if eqs t (js label) then h else switch rest dflt t
  end.

Definition drawEntity : Draw :=
  switch handlers (consoleLog (UnknownEntityType (type entity))) (type entity).

End Handlers.

(** [for (const entity of entities) switch (entity.type) ...] *)
Fixpoint drawAll (es : list Entity) : Draw :=
  match es with
  | [] => skip
  | e :: rest => drawEntity e ;; drawAll rest
  end.

(** *** [parseIges] *)

(** The returned [Group]: its children, in the order they were added. *)
Record Group : Type := { children : list Object3D }.

Inductive Outcome : Type :=
| Returned (geometry : Group)
| Thrown (message : str)
| NeverReturns.

(** A run of [parse]: what was written to the console, and how it ended. *)
Record Run : Type := {
  logged : list Diag;
  outcome : Outcome
}.

(** The four section parsers that cannot throw, in the order of the source. *)
Definition parseSections (secs : Sections) : IGES :=
  let iges1 := parseStart newIGES (startSec secs) in
  let iges2 := parseGlobal iges1 (globalSec secs) in
  let iges3 := parseDirection iges2 (dirSec secs) in
  parseParameter iges3 (paramSec secs).

(** [parseIges] after the split into lines. *)
Definition parseLines (lines : list str) : Run :=
  let '(secs, warnings) := readLines 0 lines noSections in
  match parseTerminate (parseSections secs) (terminateSec secs) with
  | inl e => {| logged := warnings; outcome := Thrown e |}
  | inr iges =>
      match drawAll (entities iges) with
      | Some (added, logs) =>
          {| logged := warnings ++ logs;
             outcome := Returned {| children := added |} |}
      | None => {| logged := warnings; outcome := NeverReturns |}
      end
  end.

(** [data.split(/\r?\n/).filter((item) => item.length > 0)] *)
Definition nonEmptyLines (data : str) : list str :=
  filter (fun item => (0 < length item)%nat) (splitLines data).

(** [parseIges], which is all of [IGESLoader.parse].  The random [name] given
    to the group is not kept. *)
Definition parseIges (data : str) : Run := parseLines (nonEmptyLines data).

Definition parse (data : str) : Run := parseIges data.

(** What a run goes through, for the statements below: the section buffers
    of a text, the entities assembled from them (the [iges.entities] that
    [parseTerminate] and the entity loop see), and the Directory line count
    that [parseTerminate] reads. *)
Definition sectionsOf (data : str) : Sections :=
  fst (readLines 0 (nonEmptyLines data) noSections).

Definition entitiesOf (data : str) : list Entity :=
  entities (parseSections (sectionsOf data)).

Definition declaredLineNum_D (data : str) : option Z :=
  parseInt (substr (terminateSec (sectionsOf data)) 17 7).

End IGES.

Import IGES.

(** ** Synthetic inputs

    Builders for fixed-column records and files, used to state the
    column-offset round trip and to run the loader on explicit texts. *)

Module Fixture.

Definition SP : ascii := " "%char.
Definition LF : str := ["010"%char].

(** [s.padEnd(w)] and [s.padStart(w)] with spaces. *)
Definition padEnd (w : nat) (s : str) : str := s ++ repeat SP (w - length s).
Definition padStart (w : nat) (s : str) : str := repeat SP (w - length s) ++ s.

(** An 80-column line: 72 columns of content, the section tag in column 73
    and the sequence number in columns 74-80. *)
Definition card (content tag seqno : string) : str :=
  padEnd 72 (js content) ++ js tag ++ padStart 7 (js seqno).

(** A Parameter line: 64 columns of data, the directory pointer in columns
    65-72, then the tag and the sequence number. *)
Definition pcard (content de seqno : string) : str :=
  padEnd 64 (js content) ++ padStart 8 (js de) ++ js "P" ++ padStart 7 (js seqno).

Definition file (cards : list str) : str :=
  concat (map (fun c => c ++ LF) cards).

(** The known values of one Directory record, with the columns the decoder
    does not read ([column73], columns 81-88, 121-136 and 153-160). *)
Record DirValues : Type := {
  v_entityType : Z;
  v_entityIndex : Z;
  v_igesVersion : Z;
  v_lineType : Z;
  v_level : Z;
  v_view : Z;
  v_transMatrix : Z;
  v_labelDisp : Z;
  v_status : str;
  v_column73 : ascii;
  v_sequenceNumber : Z;
  v_columns81_88 : str;
  v_lineWidth : Z;
  v_color : Z;
  v_paramLine : Z;
  v_formNumber : Z;
  v_columns121_136 : str;
  v_entityName : str;
  v_entitySub : Z;
  v_columns153_160 : str
}.

(** An integer right-justified in a field of [w] columns. *)
Definition intField (w : nat) (z : Z) : str := padStart w (intToString (Some z)).

(** The 160 columns of a record holding the values [v]. *)
Definition encode (v : DirValues) : str :=
  intField 8 (v_entityType v) ++ intField 8 (v_entityIndex v) ++
  intField 8 (v_igesVersion v) ++ intField 8 (v_lineType v) ++
  intField 8 (v_level v) ++ intField 8 (v_view v) ++
  intField 8 (v_transMatrix v) ++ intField 8 (v_labelDisp v) ++
  v_status v ++ [v_column73 v] ++ intField 7 (v_sequenceNumber v) ++
  v_columns81_88 v ++
  intField 8 (v_lineWidth v) ++ intField 8 (v_color v) ++
  intField 8 (v_paramLine v) ++ intField 8 (v_formNumber v) ++
  v_columns121_136 v ++
  padStart 8 (v_entityName v) ++ intField 8 (v_entitySub v) ++
  v_columns153_160 v.

Definition fits (w : nat) (z : Z) : Prop :=
  (length (intToString (Some z)) <= w)%nat.

(** Every value fits its columns; the name has no blank at either end. *)
Record wellFormed (v : DirValues) : Prop := {
  wf_entityType : fits 8 (v_entityType v);
  wf_entityIndex : fits 8 (v_entityIndex v);
  wf_igesVersion : fits 8 (v_igesVersion v);
  wf_lineType : fits 8 (v_lineType v);
  wf_level : fits 8 (v_level v);
  wf_view : fits 8 (v_view v);
  wf_transMatrix : fits 8 (v_transMatrix v);
  wf_labelDisp : fits 8 (v_labelDisp v);
  wf_status : length (v_status v) = 8%nat;
  wf_sequenceNumber : fits 7 (v_sequenceNumber v);
  wf_columns81_88 : length (v_columns81_88 v) = 8%nat;
  wf_lineWidth : fits 8 (v_lineWidth v);
  wf_color : fits 8 (v_color v);
  wf_paramLine : fits 8 (v_paramLine v);
  wf_formNumber : fits 8 (v_formNumber v);
  wf_columns121_136 : length (v_columns121_136 v) = 16%nat;
  wf_entityName : (length (v_entityName v) <= 8)%nat /\
                  trim (v_entityName v) = v_entityName v;
  wf_entitySub : fits 8 (v_entitySub v);
  wf_columns153_160 : length (v_columns153_160 v) = 8%nat
}.

(** The entity expected from a record holding [v]. *)
Definition expected (v : DirValues) : Entity :=
  {| type := js "0";
     attr :=
       {| entityType := Some (v_entityType v);
          entityIndex := Some (v_entityIndex v);
          igesVersion := Some (v_igesVersion v);
          lineType := Some (v_lineType v);
          level := Some (v_level v);
          view := Some (v_view v);
          transMatrix := Some (v_transMatrix v);
          labelDisp := Some (v_labelDisp v);
          status := v_status v;
          sequenceNumber := Some (v_sequenceNumber v);
          lineWidth := Some (v_lineWidth v);
          color := Some (v_color v);
          paramLine := Some (v_paramLine v);
          formNumber := Some (v_formNumber v);
          entityName := v_entityName v;
          entitySub := Some (v_entitySub v) |};
     params := [] |}.

(** A record of a Line entity, as an exporter writes it. *)
Definition lineRecord : DirValues :=
  {| v_entityType := 110; v_entityIndex := 1; v_igesVersion := 0;
     v_lineType := 0; v_level := 0; v_view := 0; v_transMatrix := 0;
     v_labelDisp := 0; v_status := js "00000000"; v_column73 := "D"%char;
     v_sequenceNumber := 1; v_columns81_88 := js "     110";
     v_lineWidth := 0; v_color := 0; v_paramLine := 1; v_formNumber := 0;
     v_columns121_136 := js "                ";
     v_entityName := js "LINE"; v_entitySub := 0;
     v_columns153_160 := js "D      2" |}.

(** One Point entity with the parameters 10, 20, 30. *)
Definition pointFile : str := file
  [ card "synthetic point" "S" "1";
    card "1H,,1H;,5Hpoint,9Hpoint.igs;" "G" "1";
    card "     116       1       0       0       0       0       0       000000000" "D" "1";
    card "     116       0       0       1       0                               0" "D" "2";
    pcard "116,10.,20.,30.;" "1" "1";
    card "S      1G      1D      2P      1" "T" "1" ].

(** One Copious Data entity (type 106) of form 0, a form without a case in
    [drawPath]. *)
Definition pathForm0File : str := file
  [ card "1H,,1H;;" "G" "1";
    card "     106       1       0       0       0       0       0       000000000" "D" "1";
    card "     106       0       0       1       0                               0" "D" "2";
    pcard "106,1,2,0.,0.,1.,1.;" "1" "1";
    card "S      0G      1D      2P      1" "T" "1" ].

(** One Line entity (type 110) of form 1. *)
Definition lineForm1File : str := file
  [ card "1H,,1H;;" "G" "1";
    card "     110       1       0       0       0       0       0       000000000" "D" "1";
    card "     110       0       0       1       1                               0" "D" "2";
    pcard "110,0.,0.,0.,1.,1.,1.;" "1" "1";
    card "S      0G      1D      2P      1" "T" "1" ].

(** [pointFile] with a Terminate line that declares 0 Directory lines. *)
Definition zeroCountFile : str := file
  [ card "1H,,1H;;" "G" "1";
    card "     116       1       0       0       0       0       0       000000000" "D" "1";
    card "     116       0       0       1       0                               0" "D" "2";
    pcard "116,10.,20.,30.;" "1" "1";
    card "S      0G      1D      0P      1" "T" "1" ].

(** The same with a blank Directory count. *)
Definition blankCountFile : str := file
  [ card "1H,,1H;;" "G" "1";
    card "     116       1       0       0       0       0       0       000000000" "D" "1";
    card "     116       0       0       1       0                               0" "D" "2";
    pcard "116,10.,20.,30.;" "1" "1";
    card "S      0G      1D       P      1" "T" "1" ].

(** The same with a count of 4 Directory lines, for one record. *)
Definition wrongCountFile : str := file
  [ card "1H,,1H;;" "G" "1";
    card "     116       1       0       0       0       0       0       000000000" "D" "1";
    card "     116       0       0       1       0                               0" "D" "2";
    pcard "116,10.,20.,30.;" "1" "1";
    card "S      0G      1D      4P      1" "T" "1" ].

(** A text of three lines, none of which reaches column 73. *)
Definition shortLinesFile : str :=
  js "not an IGES file" ++ LF ++ LF ++ js "        116       1" ++ LF ++ js "T".

(** A Global section that declares the field delimiter ['/'] and the
    terminator ['#'], and a Parameter section written with them. *)
Definition customDelimiterFile : str := file
  [ card "1H//1H#/5Hpoint/9Hpoint.igs#" "G" "1";
    card "     116       1       0       0       0       0       0       000000000" "D" "1";
    card "     116       0       0       1       0                               0" "D" "2";
    pcard "116/10./20./30.#" "1" "1";
    card "S      0G      1D      2P      1" "T" "1" ].

(** A Directory record of a Point entity and no Parameter line. *)
Definition directoryOnlyFile : str := file
  [ card "1H,,1H;;" "G" "1";
    card "     116       1       0       0       0       0       0       000000000" "D" "1";
    card "     116       0       0       1       0                               0" "D" "2";
    card "S      0G      1D      2P      0" "T" "1" ].

End Fixture.

Import Fixture.

(** ** Auxiliary definitions of the statements *)

(** A string of decimal digits, and its value. *)
Definition allDigits (s : str) : bool := forallb isDigit s.

Definition valueOf (s : str) : Z := mathInt 10 (digitsPrefix 10 s).

(** A line the line loop skips. *)
Definition isShort (line : str) : Prop := (length line < 73)%nat.

(** How a run ends, as a function of the section buffers: [parseLines]
    without its console. *)
Definition outcomeOf (secs : Sections) : Outcome :=
  match parseTerminate (parseSections secs) (terminateSec secs) with
  | inl e => Thrown e
  | inr iges =>
      match drawAll (entities iges) with
      | Some (added, _) => Returned {| children := added |}
      | None => NeverReturns
      end
  end.

(** The entity that the [parseParameter] loop leaves in the place of
    [entity], for the tokens [paramArray] of its segment. *)
Definition assigned (paramArray : list str) (entity : Entity) : Entity :=
  {| type := orElse (head paramArray) [];
     attr := attr entity;
     params := map parseIgesFloat (tail paramArray) |}.

(** The Parameter parser as the specification words it, to compare with
    [parseParameter]: the buffer is split on the terminator the accumulator
    holds and each segment on the field delimiter it holds. *)
Definition parseParameter_declared (iges : IGES) (data : str) : IGES :=
  let params := pop (split (termDelimiter iges) data) in
  let splitParams := map (split (fieldDelimiter iges)) params in
  setEntities iges
    (fold_left (assignParams splitParams) (seq 0 (length splitParams))
       (entities iges)).

(** The accumulator that [parseParameter] receives in [parseIges]. *)
Definition beforeParameter (secs : Sections) : IGES :=
  parseDirection
    (parseGlobal (parseStart newIGES (startSec secs)) (globalSec secs))
    (dirSec secs).

(** ** Auxiliary definitions of the further statements *)

(** [pieces.join(c)] for a one-character separator. *)
Fixpoint join (c : ascii) (pieces : list str) : str :=
  match pieces with
  | [] => []
  | [p] => p
  | p :: rest => p ++ c :: join c rest
  end.

Definition CR : ascii := "013"%char.
Definition NL : ascii := "010"%char.

(** A text whose lines each end with the line terminator [eol]. *)
Definition unlines (eol : str) (lines : list str) : str :=
  concat (map (fun line => line ++ eol) lines).

(** The last code unit of a line is not a carriage return. *)
Definition noFinalCR (line : str) : Prop := last line <> Some CR.

(** A line that the line loop files under the section [tag]: it reaches
    column 73 and holds [tag] there. *)
Definition isCard (tag : string) (line : str) : bool :=
  negb (length line <? 73)%nat && eqs (substr line 72 1) (js tag).

Definition cardsOf (tag : string) (lines : list str) : list str :=
  filter (fun line => isCard tag line = true) lines.

(** The text that the lines of section [tag] add to its buffer, each line
    cut by [cut]. *)
Definition buffer (tag : string) (cut : str -> str) (lines : list str) : str :=
  concat (map cut (cardsOf tag lines)).

(** The warning that the line of index [i] causes, if it causes one. *)
Definition lineDiag (i : nat) (line : str) : option Diag :=
  if (length line <? 73)%nat then
    Some (ShortLine i (length line) (take 50 line))
  else if existsb (fun tag => eqs (substr line 72 1) (js tag))
            ["S"; "G"; "D"; "P"; "T"]%string
  then None
  else Some (UnknownSection i (substr line 72 1)).

Definition diagsFrom (i : nat) (lines : list str) : list Diag :=
  omap id (imap (fun j line => lineDiag (i + j) line) lines).

(** A text of two Directory lines, one Parameter line and one Terminate
    line, without Start and Global sections and with a line that holds ['X']
    in column 73 between them. *)
Definition bareFile : str := file
  [ card "     116       1       0       0       0       0       0       000000000" "D" "1";
    card "not a section" "X" "1";
    card "     116       0       0       1       0                               0" "D" "2";
    pcard "116,10.,20.,30.;" "1" "1";
    card "S      1G      1D      2P      1" "T" "1" ].

(** The Hollerith form of a string: its length in decimal, ['H'], the
    string. *)
Definition hollerith (s : str) : str :=
  intToString (Some (Z.of_nat (length s))) ++ "H"%char :: s.

Definition spaces (k : nat) : str := repeat " "%char k.


(** A Global buffer that declares the field delimiter [c] and the
    terminator [t] and goes on with the fields [fs]. *)
Definition globalBuffer (c t : ascii) (fs : list str) : str :=
  js "1H" ++ c :: c :: js "1H" ++ t :: c :: join c fs.

(** A Terminate buffer: four counts of seven columns, each behind one column
    that is not read. *)
Definition terminateBuffer (c0 c1 c2 c3 : ascii) (s g d p : Z) (rest : str)
    : str :=
  c0 :: intField 7 s ++ c1 :: intField 7 g ++ c2 :: intField 7 d
  ++ c3 :: intField 7 p ++ rest.

(** A Parameter buffer: every record is its tokens joined by [","] and ended
    by [";"]. *)
Definition paramBuffer (records : list (list str)) : str :=
  concat (map (fun tokens => join ","%char tokens ++ js ";") records).

(** A token holds neither [","] nor [";"]. *)
Definition plainToken (token : str) : Prop :=
  (","%char ∉ token) /\ (";"%char ∉ token).

(** The entity types whose handler adds an object to the group. *)
Definition drawsObject (t : str) : bool :=
  eqs t (js "100") || eqs t (js "106") || eqs t (js "110")
  || eqs t (js "116") || eqs t (js "126").

(** The entity types with a handler. *)
Definition knownTypes : list string :=
  [ "100"; "102"; "106"; "108"; "110"; "116"; "120"; "122"; "124"; "126";
    "128"; "142"; "144"; "212"; "214"; "216"; "314"; "402"; "406" ]%string.

(** The entity types whose handler does nothing. *)
Definition idleTypes : list string :=
  [ "102"; "108"; "120"; "122"; "128"; "142"; "144"; "212"; "214"; "216";
    "314"; "402"; "406" ]%string.

(** Coordinates in a row, as a parameter list carries them. *)
Definition flat3 (points : list Vector3) : list number :=
  concat (map (fun '(x, y, z) => [x; y; z]) points).

Definition flat2 (points : list Vector2) : list number :=
  concat (map (fun '(x, y) => [x; y]) points).

(** The positional join of the Directory records with the Parameter
    records: the record of index [i] takes the type and the parameters of
    the Parameter record of index [i], when there is one. *)
Definition assembled (recs : list DirValues) (records : list (list str))
    : list Entity :=
  imap (fun i v =>
          match records !! i with
          | Some tokens => assigned tokens (expected v)
          | None => expected v
          end) recs.

(** The tokens of the Parameter record of a Point entity with integer
    coordinates, written as IGES reals. *)
Definition pointTokens (p : Z * Z * Z) : list str :=
  let '(x, y, z) := p in
  [ js "116"; intToString (Some x) ++ js "."; intToString (Some y) ++ js ".";
    intToString (Some z) ++ js "." ].


(** The Directory record of [pointFile]. *)
Definition pointRecord : DirValues :=
  {| v_entityType := 116; v_entityIndex := 1; v_igesVersion := 0;
     v_lineType := 0; v_level := 0; v_view := 0; v_transMatrix := 0;
     v_labelDisp := 0; v_status := js "00000000"; v_column73 := "D"%char;
     v_sequenceNumber := 1; v_columns81_88 := js "     116";
     v_lineWidth := 0; v_color := 0; v_paramLine := 1; v_formNumber := 0;
     v_columns121_136 := js "                ";
     v_entityName := js ""; v_entitySub := 0;
     v_columns153_160 := js "D      2" |}.
Example parseInt_ex1 : parseInt (js "     110") = Some 110.
Proof. reflexivity. Qed.
Example parseInt_ex2 : parseInt (js "  0x1F") = Some 31.
Proof. reflexivity. Qed.
Example parseInt_ex3 : parseInt (js "        ") = None.
Proof. reflexivity. Qed.
Example parseFloat_ex1 : parseFloat (js "1.5e+02") = Fin (150 # 1).
Proof. reflexivity. Qed.
Example parseFloat_ex2 : parseFloat (js "-.5") = Fin (-1 # 2).
Proof. reflexivity. Qed.
Example parseFloat_ex3 : parseFloat (js "1e") = Fin (1 # 1).
Proof. reflexivity. Qed.
Example split_ex : split (js ";") (js "a;b;") = [js "a"; js "b"; js ""].
Proof. reflexivity. Qed.
Example split_ex2 : split (js "ab") (js "xabyab") = [js "x"; js "y"; js ""].
Proof. reflexivity. Qed.
Example lines_ex : splitLines (js "a
b") = [js "a"; js "b"].
Proof. reflexivity. Qed.


(** ** Properties *)

(** *** Strings and integers *)

Lemma eqs_eq (a b : str) : eqs a b = true <-> a = b.
Proof.
  revert b; induction a as [|x a IH]; intros [|y b]; simpl; try easy.
  rewrite andb_true_iff, IH.
  destruct (Ascii.eqb_spec x y); split.
  - intros [_ ->]; congruence.
  - intros [= _ ->]; auto.
  - intros [? _]; discriminate.
  - congruence.
Qed.

Lemma eqs_refl (a : str) : eqs a a = true.
Proof. now apply eqs_eq. Qed.

Lemma eqs_neq (a b : str) : a <> b -> eqs a b = false.
Proof.
  intros H; destruct (eqs a b) eqn:E; [|reflexivity].
  apply eqs_eq in E; contradiction.
Qed.

Lemma js_inj (s t : string) : js s = js t -> s = t.
Proof.
  intros H. rewrite <- (string_of_list_ascii_of_string s),
    <- (string_of_list_ascii_of_string t).
  unfold js in H. now rewrite H.
Qed.

Lemma js_cons (c : ascii) (s : string) : js (String c s) = c :: js s.
Proof. reflexivity. Qed.

Lemma isDigit_facts (c : ascii) :
  isDigit c = true ->
  isWhiteSpace c = false /\ Ascii.eqb c "-" = false /\ Ascii.eqb c "+" = false /\
  Ascii.eqb c "x" = false /\ Ascii.eqb c "X" = false /\
  exists d, digitValue c = Some d /\ 0 <= d < 10 /\
            d = Z.of_nat (nat_of_ascii c) - 48.
Proof.
  destruct c as [[] [] [] [] [] [] [] []]; try discriminate; intros _;
    repeat split; try reflexivity; eexists; (split; [reflexivity|]);
    vm_compute; repeat split; intros; discriminate.
Qed.

Lemma trimStart_spaces (k : nat) (s : str) :
  trimStart (repeat " "%char k ++ s) = trimStart s.
Proof. induction k; simpl; auto. Qed.


Lemma parseInt_unsigned (k : nat) (s : str) :
  allDigits s = true -> s <> [] ->
  parseInt (repeat " "%char k ++ s) = Some (valueOf s).
Proof.
  intros Hd Hne. unfold parseInt, valueOf. rewrite trimStart_spaces.
  destruct s as [|c s]; [congruence|]. simpl in Hd.
  apply andb_true_iff in Hd as [Hc Hs].
  destruct (isDigit_facts c Hc) as (Hw & Hm & Hp & Hx & HX & d & Hv & Hr & _).
  simpl trimStart. rewrite Hw. unfold stripSign. rewrite Hm, Hp.
  assert (Hh : stripHexPrefix (c :: s) = (10, c :: s)).
  { unfold stripHexPrefix. destruct s as [|c2 s]; [reflexivity|].
    simpl in Hs. apply andb_true_iff in Hs as [Hc2 _].
    destruct (isDigit_facts c2 Hc2) as (_ & _ & _ & -> & -> & _).
    now rewrite andb_false_r. }
  rewrite Hh. simpl digitsPrefix. rewrite Hv.
  destruct (Z.ltb_spec d 10); [|lia].
  now rewrite Z.mul_1_l.
Qed.

Lemma parseInt_negative (k : nat) (s : str) :
  allDigits s = true -> s <> [] ->
  parseInt (repeat " "%char k ++ "-"%char :: s) = Some (- valueOf s).
Proof.
  intros Hd Hne. unfold parseInt, valueOf. rewrite trimStart_spaces.
  simpl trimStart. unfold stripSign. simpl Ascii.eqb. cbv iota.
  destruct s as [|c s]; [congruence|]. simpl in Hd.
  apply andb_true_iff in Hd as [Hc Hs].
  destruct (isDigit_facts c Hc) as (Hw & Hm & Hp & Hx & HX & d & Hv & Hr & _).
  assert (Hh : stripHexPrefix (c :: s) = (10, c :: s)).
  { unfold stripHexPrefix. destruct s as [|c2 s]; [reflexivity|].
    simpl in Hs. apply andb_true_iff in Hs as [Hc2 _].
    destruct (isDigit_facts c2 Hc2) as (_ & _ & _ & -> & -> & _).
    now rewrite andb_false_r. }
  rewrite Hh. simpl digitsPrefix. rewrite Hv.
  destruct (Z.ltb_spec d 10); [|lia].
  reflexivity.
Qed.

(** The digits of a [Decimal.uint], as printed. *)
Lemma uint_allDigits (u : Decimal.uint) :
  allDigits (js (NilEmpty.string_of_uint u)) = true.
Proof. induction u; simpl; auto. Qed.

Lemma uint_acc (u : Decimal.uint) (acc : positive) :
  fold_left (fun a d => a * 10 + d)
    (digitsPrefix 10 (js (NilEmpty.string_of_uint u))) (Zpos acc)
  = Zpos (Pos.of_uint_acc u acc).
Proof.
  revert acc; induction u; intros acc; simpl; auto;
    rewrite <- IHu; f_equal;
    match goal with
    | |- context [Z.of_nat (nat_of_ascii ?c)] =>
        let v := eval vm_compute in (Z.of_nat (nat_of_ascii c)) in
        change (Z.of_nat (nat_of_ascii c)) with v
    end; lia.
Qed.

Lemma uint_value (u : Decimal.uint) :
  valueOf (js (NilEmpty.string_of_uint u)) = Z.of_N (Pos.of_uint u).
Proof.
  unfold valueOf, mathInt. induction u; simpl; auto;
    match goal with
    | |- context [0 * 10 + (Z.of_nat (nat_of_ascii ?c) - 48)] =>
        let v := eval vm_compute in (0 * 10 + (Z.of_nat (nat_of_ascii c) - 48)) in
        change (0 * 10 + (Z.of_nat (nat_of_ascii c) - 48)) with v
    end; apply uint_acc.
Qed.

Lemma uint_nonempty (u : Decimal.uint) :
  u <> Decimal.Nil -> js (NilEmpty.string_of_uint u) <> [].
Proof. destruct u; simpl; congruence. Qed.

Lemma nilzero_nonnil (u : Decimal.uint) :
  u <> Decimal.Nil -> NilZero.string_of_uint u = NilEmpty.string_of_uint u.
Proof. destruct u; simpl; congruence. Qed.

(** [parseInt] reads back what [toString] prints, also behind blanks. *)
Lemma parseInt_intToString_pad (k : nat) (n : option Z) :
  parseInt (repeat " "%char k ++ intToString n) = n.
Proof.
  destruct n as [z|]; [|unfold parseInt; rewrite trimStart_spaces; reflexivity].
  destruct z as [|p|p].
  - unfold parseInt; rewrite trimStart_spaces; reflexivity.
  - unfold intToString, Z.to_int, NilZero.string_of_int.
    pose proof (DecimalPos.Unsigned.to_uint_nonnil p) as Hn.
    rewrite (nilzero_nonnil _ Hn).
    rewrite parseInt_unsigned.
    + rewrite uint_value. rewrite DecimalPos.Unsigned.of_to. reflexivity.
    + apply uint_allDigits.
    + now apply uint_nonempty.
  - unfold intToString, Z.to_int, NilZero.string_of_int.
    pose proof (DecimalPos.Unsigned.to_uint_nonnil p) as Hn.
    rewrite (nilzero_nonnil _ Hn), js_cons.
    rewrite parseInt_negative.
    + rewrite uint_value, DecimalPos.Unsigned.of_to. reflexivity.
    + apply uint_allDigits.
    + now apply uint_nonempty.
Qed.

Lemma parseInt_intToString (n : option Z) : parseInt (intToString n) = n.
Proof. apply (parseInt_intToString_pad 0). Qed.

Lemma intToString_inj (n m : option Z) : intToString n = intToString m -> n = m.
Proof.
  intros H. rewrite <- (parseInt_intToString n), <- (parseInt_intToString m).
  now rewrite H.
Qed.

(** *** Field decoder *)

Lemma indexOf_None (c : ascii) (s : str) : indexOf c s = None <-> c ∉ s.
Proof.
  induction s as [|x s IH]; simpl.
  - split; [intros _; apply not_elem_of_nil | reflexivity].
  - rewrite not_elem_of_cons. destruct (Ascii.eqb_spec x c) as [->|Hne].
    + split; [discriminate | intros [? _]; congruence].
    + destruct (indexOf c s); simpl.
      * split; [discriminate|]. intros [_ H]. apply IH in H. discriminate.
      * split; [|reflexivity]. intros _. split; [congruence | now apply IH].
Qed.

Lemma indexOf_first (c : ascii) (pre rest : str) :
  c ∉ pre -> indexOf c (pre ++ c :: rest) = Some (length pre).
Proof.
  induction pre as [|x pre IH]; simpl; intros H.
  - now rewrite Ascii.eqb_refl.
  - apply not_elem_of_cons in H as [Hne H].
    destruct (Ascii.eqb_spec x c); [congruence|]. now rewrite IH.
Qed.

Lemma substr_prefix (a b : str) : substr (a ++ b) 0 (length a) = a.
Proof. unfold substr. rewrite drop_0. now apply take_app_length. Qed.

Lemma substr_after (a : str) (c : ascii) (b : str) (n : nat) :
  substr (a ++ c :: b) (length a + 1) n = take n b.
Proof.
  unfold substr. replace (length a + 1)%nat with (length (a ++ [c])).
  - now rewrite (cons_middle c a b), app_assoc, drop_app_length.
  - rewrite length_app. reflexivity.
Qed.

Lemma replaceD_id (p : str) : "D"%char ∉ p -> replaceD p = p.
Proof.
  induction p as [|c p IH]; simpl; [reflexivity|].
  intros H. apply not_elem_of_cons in H as [Hne H].
  destruct (Ascii.eqb_spec c "D"); [congruence|]. now rewrite IH.
Qed.

Lemma replaceD_no_D (p : str) : "D"%char ∉ replaceD p.
Proof.
  induction p as [|c p IH]; simpl; [apply not_elem_of_nil|].
  apply not_elem_of_cons. split; [|exact IH].
  destruct (Ascii.eqb_spec c "D"); [discriminate | congruence].
Qed.

(** C7.  The Hollerith decoder: a token without ['H'] decodes to nothing,
    and to nothing only then (so nothing is never confused with the empty
    string); a token [digitCount ++ "H" ++ rest] whose count parses to [n]
    decodes to the first [n] code units of [rest], which is all of [rest]
    when fewer than [n] follow the marker (and the empty string when [n] is
    negative); ["4HABCD"] decodes to ["ABCD"]. *)
Theorem parseIgesString_hollerith :
  (forall token : str,
      "H"%char ∉ token <-> parseIgesString token = None) /\
  (forall (digitCount rest : str) (n : Z),
      "H"%char ∉ digitCount -> parseInt digitCount = Some n ->
      parseIgesString (digitCount ++ "H"%char :: rest)
      = Some (take (Z.to_nat n) rest)) /\
  parseIgesString (js "4HABCD") = Some (js "ABCD").
Proof.
  split; [|split].
  - intros token. unfold parseIgesString. rewrite <- indexOf_None.
    destruct (indexOf "H" token); split; congruence.
  - intros digitCount rest n Hno Hn. unfold parseIgesString.
    rewrite (indexOf_first _ _ _ Hno), substr_prefix, Hn, substr_after.
    reflexivity.
  - reflexivity.
Qed.

Lemma parseIgesString_hollerith_witness :
  parseIgesString (js "12" ++ "H"%char :: js "ab")
  = Some (take (Z.to_nat 12) (js "ab")).
Proof.
  apply (proj1 (proj2 parseIgesString_hollerith) (js "12") (js "ab") 12).
  - intros H. repeat (apply elem_of_cons in H as [H|H]; [discriminate|]).
    now apply elem_of_nil in H.
  - reflexivity.
Defined.

(** C8.  The float decoder rewrites every ['D'] (and no ['d']) to ['e'] and
    then parses: ["1.5D+02"] and ["1.5e+02"] both decode to 150; a token
    without ['D'] is left as it is by the rewrite, and rewriting twice is
    rewriting once. *)
Theorem parseIgesFloat_exponent :
  parseIgesFloat (js "1.5D+02") = Fin 150 /\
  parseIgesFloat (js "1.5e+02") = Fin 150 /\
  replaceD (js "1.5D+02") = js "1.5e+02" /\
  replaceD (js "1.5d+02") = js "1.5d+02" /\
  (forall p : str, parseIgesFloat p = parseFloat (replaceD p)) /\
  (forall p : str, "D"%char ∉ p -> replaceD p = p) /\
  (forall p : str, parseIgesFloat (replaceD p) = parseIgesFloat p).
Proof.
  repeat split; try reflexivity.
  - apply replaceD_id.
  - intros p. unfold parseIgesFloat.
    now rewrite (replaceD_id _ (replaceD_no_D p)).
Qed.

Lemma parseIgesFloat_exponent_witness :
  replaceD (js "1.5e+02") = js "1.5e+02".
Proof.
  apply (proj1 (proj2 (proj2 (proj2 (proj2 (proj2 parseIgesFloat_exponent)))))).
  intros H. repeat (apply elem_of_cons in H as [H|H]; [discriminate|]).
  now apply elem_of_nil in H.
Defined.

(** *** Numbers that are integers *)

Lemma Qred_int (z : Z) : Qred (z # 1) = z # 1.
Proof.
  unfold Qred.
  pose proof (Z.ggcd_gcd z 1) as Hg.
  pose proof (Z.ggcd_correct_divisors z 1) as Hd.
  destruct (Z.ggcd z 1) as (g, (aa, bb)). simpl in Hg.
  rewrite Z.gcd_1_r in Hg. subst g. destruct Hd as [Ha Hb].
  rewrite Z.mul_1_l in Ha, Hb. now subst.
Qed.





Lemma loopCount_ofZ (z : Z) : loopCount (ofZ z) = Some (Z.to_nat z).
Proof.
  unfold loopCount, ofZ, Qceiling, Qfloor. simpl.
  rewrite Z.div_1_r. do 2 f_equal. lia.
Qed.

(** The loop count is the number of counter values below the bound. *)
Lemma loopCount_lt (bound : number) (n i : nat) :
  loopCount bound = Some n -> lt (ofNat i) bound = true <-> (i < n)%nat.
Proof.
  destruct bound as [| | |q]; simpl; try (intros [= <-]); try discriminate;
    try (split; [discriminate | lia]).
  rewrite negb_true_iff, <- not_true_iff_false, Qle_bool_iff.
  unfold Qceiling, Qfloor, Qopp, Qle. destruct q as [a d]. simpl.
  rewrite Z.mul_1_r.
  assert (Hd : 0 < Z.pos d) by lia.
  split.
  - intros H.
    assert (Hlt : Z.of_nat i * Z.pos d < a) by lia.
    assert (- a / Z.pos d < - Z.of_nat i); [|lia].
    apply Z.div_lt_upper_bound; lia.
  - intros H Hle.
    assert (- Z.of_nat i <= - a / Z.pos d); [|lia].
    apply Z.div_le_lower_bound; lia.
Qed.

Lemma loopCount_unbounded (i : nat) : lt (ofNat i) PInf = true.
Proof. reflexivity. Qed.

Lemma arrayIndex_ofZ (z : Z) :
  arrayIndex (ofZ z) = if 0 <=? z then Some (Z.to_nat z) else None.
Proof. unfold arrayIndex, ofZ. rewrite Qred_int. reflexivity. Qed.

Lemma atNum_ofNat (a : list number) (i : nat) : atNum a (ofNat i) = at_ a i.
Proof.
  unfold atNum, ofNat. rewrite arrayIndex_ofZ.
  destruct (Z.leb_spec 0 (Z.of_nat i)); [|lia]. now rewrite Nat2Z.id.
Qed.

(** *** Geometry synthesizer *)

Lemma form_is (f : option Z) (z : Z) (s : string) :
  intToString (Some z) = js s -> eqs (intToString f) (js s) = true <-> f = Some z.
Proof.
  intros <-. rewrite eqs_eq. split; [apply intToString_inj | now intros ->].
Qed.

Lemma form_is_not (f : option Z) (z : Z) (s : string) :
  intToString (Some z) = js s -> f <> Some z -> eqs (intToString f) (js s) = false.
Proof.
  intros Hs Hf. apply eqs_neq. rewrite <- Hs. intros H.
  now apply intToString_inj in H.
Qed.

(** C9.  A Point entity (type 116) whose first three parameters are [x],
    [y], [z] adds exactly one object to the group, a [Points] whose position
    array is [x, y, z], and writes nothing to the console; the text of a file
    with one Point entity of parameters 10, 20, 30 parses to a group of one
    [Points] at (10, 20, 30). *)
Theorem drawPoint_position :
  (forall (entity : Entity) (x y z : number) (rest : list number),
      type entity = js "116" -> params entity = x :: y :: z :: rest ->
      drawEntity entity = Some ([Points [x; y; z]], []) /\
      drawAll [entity] = Some ([Points [x; y; z]], [])) /\
  parse pointFile
  = {| logged := [];
       outcome := Returned {| children := [Points [Fin 10; Fin 20; Fin 30]] |} |}.
Proof.
  split; [|vm_compute; reflexivity].
  intros entity x y z rest Ht Hp.
  assert (H : drawEntity entity = Some ([Points [x; y; z]], [])).
  { unfold drawEntity. rewrite Ht. cbn. unfold drawPoint, at_. rewrite Hp.
    reflexivity. }
  split; [exact H|]. simpl. now rewrite H.
Qed.

Lemma drawPoint_position_witness :
  drawEntity {| type := js "116"; attr := attr (expected lineRecord);
                params := [Fin 10; Fin 20; Fin 30] |}
  = Some ([Points [Fin 10; Fin 20; Fin 30]], []).
Proof.
  apply (proj1 drawPoint_position _ (Fin 10) (Fin 20) (Fin 30) []);
    reflexivity.
Defined.

(** C3, as the source has it.  [drawPath] (type 106) on a form number other
    than 12, 40 and 63, and [drawLine] (type 110) on a form number that is a
    number other than 0 and 2, write one diagnostic to the console and then,
    like every other branch of these two handlers, add one [Line] to the
    group; its list of points is empty. *)
Theorem unsupported_form_adds_empty_line :
  forall entity : Entity,
    (type entity = js "106" ->
     formNumber (attr entity) <> Some 12 ->
     formNumber (attr entity) <> Some 40 ->
     formNumber (attr entity) <> Some 63 ->
     drawEntity entity
     = Some ([Line []], [PathUnsupportedForm (formNumber (attr entity))])) /\
    (forall f : Z,
        type entity = js "110" ->
        formNumber (attr entity) = Some f -> f <> 0 -> f <> 2 ->
        drawEntity entity = Some ([Line []], [LineUnsupportedForm (Some f)])).
Proof.
  intros entity; split.
  - intros Ht H12 H40 H63. unfold drawEntity. rewrite Ht. cbn.
    unfold drawPath.
    rewrite (form_is_not _ 12 "12"), (form_is_not _ 40 "40"),
      (form_is_not _ 63 "63") by (reflexivity || assumption).
    reflexivity.
  - intros f Ht Hf H0 H2. unfold drawEntity. rewrite Ht. cbn.
    unfold drawLine. rewrite Hf.
    rewrite (form_is_not _ 0 "0"), (form_is_not _ 2 "2")
      by (reflexivity || congruence).
    reflexivity.
Qed.

Lemma unsupported_form_adds_empty_line_witness :
  drawEntity {| type := js "106"; attr := attr (expected lineRecord);
                params := [] |}
  = Some ([Line []], [PathUnsupportedForm (Some 0)]) /\
  drawEntity {| type := js "110";
                attr := decodeAttr (padStart 120 (js "7"));
                params := [] |}
  = Some ([Line []], [LineUnsupportedForm (Some 7)]).
Proof.
  split.
  - refine (proj1 (unsupported_form_adds_empty_line
                     {| type := js "106"; attr := attr (expected lineRecord);
                        params := [] |}) _ _ _ _);
      [reflexivity | discriminate | discriminate | discriminate].
  - refine (proj2 (unsupported_form_adds_empty_line
                     {| type := js "110";
                        attr := decodeAttr (padStart 120 (js "7"));
                        params := [] |}) 7 _ _ _ _);
      [reflexivity | reflexivity | discriminate | discriminate].
Defined.

(** C3 as stated fails.  The file [pathForm0File] holds one entity of type
    106 and form 0, and [lineForm1File] one entity of type 110 and form 1;
    each parse returns a group with one child, so it is not the case that
    such an entity contributes no child. *)
Lemma unsupported_form_no_child_counterexample :
  parse pathForm0File
  = {| logged := [PathUnsupportedForm (Some 0)];
       outcome := Returned {| children := [Line []] |} |} /\
  parse lineForm1File
  = {| logged := [LineUnsupportedForm (Some 1)];
       outcome := Returned {| children := [Line []] |} |} /\
  ~ (forall (data : str) (e : Entity) (g : Group),
        entitiesOf data = [e] ->
        (type e = js "106" /\ formNumber (attr e) <> Some 12 /\
         formNumber (attr e) <> Some 40 /\ formNumber (attr e) <> Some 63) \/
        (type e = js "110" /\ exists f, formNumber (attr e) = Some f /\
                                        f <> 0 /\ f <> 2) ->
        outcome (parse data) = Returned g -> children g = []).
Proof.
  split; [vm_compute; reflexivity|]. split; [vm_compute; reflexivity|].
  intros H.
  assert (He : exists e, entitiesOf pathForm0File = [e] /\
                         type e = js "106" /\ formNumber (attr e) = Some 0).
  { eexists; split; [vm_compute; reflexivity|]. split; reflexivity. }
  destruct He as (e & He & Ht & Hf).
  specialize (H pathForm0File e {| children := [Line []] |} He).
  assert (Hc : children {| children := [Line []] |} = []); [|discriminate Hc].
  apply H.
  - left. rewrite Hf. repeat split; (assumption || discriminate).
  - vm_compute; reflexivity.
Qed.



Example drawRBSplineCurve_run :
  drawEntity {| type := js "126"; attr := attr (expected lineRecord);
                params := map ofZ [1; 1; 0; 0; 0; 0; 0; 0; 1; 1; 1; 1; 5; 6; 7; 8; 9; 10] |}
  = Some ([Line [(Fin 5, Fin 6, Fin 7); (Fin 8, Fin 9, Fin 10)]], []).
Proof. vm_compute. reflexivity. Qed.

(** *** Section splitter and the count check *)

Lemma readLines_short (lines : list str) (i : nat) (secs : Sections) :
  Forall isShort lines ->
  readLines i lines secs
  = (secs, imap (fun j line => ShortLine (i + j) (length line) (take 50 line))
             lines).
Proof.
  intros H; revert i; induction H as [|line lines Hl _ IH]; intros i.
  - reflexivity.
  - simpl. destruct (Nat.ltb_spec (length line) 73); [|unfold isShort in Hl; lia].
    rewrite IH. rewrite Nat.add_0_r. do 2 f_equal.
    apply imap_ext. intros j l _. simpl. do 2 f_equal. lia.
Qed.

(** The section buffers do not depend on the short lines, nor on the index
    the loop starts from. *)
Lemma readLines_skips_short (lines : list str) (i j : nat) (secs : Sections) :
  fst (readLines i lines secs)
  = fst (readLines j (filter (fun line => (73 <= length line)%nat) lines) secs).
Proof.
  revert i j secs; induction lines as [|line lines IH]; intros i j secs.
  - reflexivity.
  - simpl readLines at 1. destruct (Nat.ltb_spec (length line) 73) as [Hs|Hl].
    + rewrite filter_cons_False by lia.
      specialize (IH (S i) j secs). destruct (readLines (S i) lines secs).
      exact IH.
    + rewrite filter_cons_True by lia. simpl readLines.
      destruct (Nat.ltb_spec (length line) 73); [lia|].
      destruct (appendLine secs (substr line 72 1) (substr line 0 80)).
      * apply IH.
      * specialize (IH (S i) (S j) secs).
        destruct (readLines (S i) lines secs) as [s1 l1].
        destruct (readLines (S j) _ secs) as [s2 l2].
        exact IH.
Qed.

Lemma outcome_parseLines (lines : list str) :
  outcome (parseLines lines) = outcomeOf (fst (readLines 0 lines noSections)).
Proof.
  unfold parseLines, outcomeOf.
  destruct (readLines 0 lines noSections) as [secs warnings]. simpl.
  destruct (parseTerminate _ _); [reflexivity|].
  destruct (drawAll _) as [[? ?]|]; reflexivity.
Qed.

(** C4.  When every non-empty line of the text is shorter than 73 code
    units, no entity is assembled and the parse returns a group without
    children, after one warning per line, in line order.  In any text, the
    way the parse ends (the returned group, a thrown error) is the one of the
    text without its short lines: a short line aborts nothing. *)
Theorem short_lines_never_abort :
  (forall data : str,
      Forall isShort (nonEmptyLines data) ->
      entitiesOf data = [] /\
      parse data
      = {| logged := imap (fun i line =>
                             ShortLine i (length line) (take 50 line))
                       (nonEmptyLines data);
           outcome := Returned {| children := [] |} |}) /\
  (forall lines : list str,
      outcome (parseLines lines)
      = outcome (parseLines
                   (filter (fun line => (73 <= length line)%nat) lines))).
Proof.
  split.
  - intros data H. unfold entitiesOf, sectionsOf, parse, parseIges, parseLines.
    rewrite (readLines_short _ 0 noSections H). simpl fst.
    split; [reflexivity|].
    change (parseTerminate (parseSections noSections) (terminateSec noSections))
      with (@inr str IGES
              {| fieldDelimiter := js ","; termDelimiter := js ";";
                 entities := []; comment := Some [];
                 globals := globals (parseSections noSections);
                 lineNums := Some {| lineNum_S := None; lineNum_G := None;
                                     lineNum_D := None; lineNum_P := None |} |}).
    simpl. now rewrite app_nil_r.
  - intros lines. rewrite !outcome_parseLines.
    now rewrite (readLines_skips_short lines 0 0).
Qed.

Lemma short_lines_never_abort_witness :
  entitiesOf shortLinesFile = [] /\
  parse shortLinesFile
  = {| logged := imap (fun i line => ShortLine i (length line) (take 50 line))
                   (nonEmptyLines shortLinesFile);
       outcome := Returned {| children := [] |} |}.
Proof.
  apply (proj1 short_lines_never_abort shortLinesFile).
  vm_compute. repeat constructor.
Defined.

Example shortLinesFile_log :
  logged (parse shortLinesFile)
  = [ ShortLine 0 16 (js "not an IGES file");
      ShortLine 1 19 (js "        116       1");
      ShortLine 2 1 (js "T") ].
Proof. vm_compute. reflexivity. Qed.

Lemma inconsistent_spec (n : nat) (lineNumD : option Z) :
  inconsistent n lineNumD = true
  <-> exists d, lineNumD = Some d /\ d <> 0 /\ 2 * Z.of_nat n <> d.
Proof.
  unfold inconsistent. destruct lineNumD as [d|].
  - rewrite andb_true_iff, !negb_true_iff, !Z.eqb_neq. split.
    + intros [? ?]. now exists d.
    + intros (d' & [= <-] & ? & ?). now split.
  - split; [discriminate | intros (d & [=] & _)].
Qed.

Lemma outcomeOf_thrown (secs : Sections) (e : str) :
  outcomeOf secs = Thrown e
  <-> e = errInconsistent /\
      inconsistent (length (entities (parseSections secs)))
        (parseInt (substr (terminateSec secs) 17 7)) = true.
Proof.
  unfold outcomeOf, parseTerminate. simpl.
  destruct (inconsistent _ _).
  - split; [intros [= <-]; now split | intros [-> _]; reflexivity].
  - destruct (drawAll _) as [[? ?]|]; split; try discriminate;
      intros [_ ?]; discriminate.
Qed.

(** C1, as the source has it.  The parse ends with the error "Inconsistent
    entity count" exactly when the Directory line count of the Terminate
    section parses to a number other than 0 and twice the number of
    assembled entities differs from it; a count that is 0 or does not parse
    never raises it.  It is the only error a parse throws, and a run that
    throws returns no group. *)
Theorem inconsistent_count_iff :
  forall data : str,
    (outcome (parse data) = Thrown errInconsistent
     <-> exists d : Z,
           declaredLineNum_D data = Some d /\ d <> 0 /\
           2 * Z.of_nat (length (entitiesOf data)) <> d) /\
    (declaredLineNum_D data = None \/ declaredLineNum_D data = Some 0 ->
     outcome (parse data) <> Thrown errInconsistent) /\
    (forall e : str,
        outcome (parse data) = Thrown e ->
        e = errInconsistent /\
        forall g : Group, outcome (parse data) <> Returned g).
Proof.
  intros data. unfold parse, parseIges. rewrite outcome_parseLines.
  fold (sectionsOf data).
  assert (Hiff : outcomeOf (sectionsOf data) = Thrown errInconsistent
     <-> exists d : Z,
           declaredLineNum_D data = Some d /\ d <> 0 /\
           2 * Z.of_nat (length (entitiesOf data)) <> d).
  { rewrite outcomeOf_thrown, inconsistent_spec. unfold declaredLineNum_D,
      entitiesOf. tauto. }
  split; [exact Hiff|]. split.
  - intros Hd Ht. apply Hiff in Ht as (d & Hs & Hnz & _).
    destruct Hd as [Hd|Hd]; rewrite Hd in Hs; congruence.
  - intros e He. split.
    + now apply outcomeOf_thrown in He.
    + intros g. rewrite He. discriminate.
Qed.

Lemma inconsistent_count_iff_witness :
  outcome (parse wrongCountFile) = Thrown errInconsistent /\
  outcome (parse blankCountFile) <> Thrown errInconsistent.
Proof.
  split.
  - apply (proj1 (inconsistent_count_iff wrongCountFile)).
    exists 4. split; [vm_compute; reflexivity|]. split; [discriminate|].
    vm_compute. discriminate.
  - apply (proj1 (proj2 (inconsistent_count_iff blankCountFile))).
    left. vm_compute. reflexivity.
Defined.

(** C1 as stated fails.  [zeroCountFile] declares 0 Directory lines and
    [blankCountFile] a count that does not parse; one entity is assembled
    from each, which differs from the declared count divided by 2, and each
    parse returns its group. *)
Lemma inconsistent_count_counterexample :
  declaredLineNum_D zeroCountFile = Some 0 /\
  length (entitiesOf zeroCountFile) = 1%nat /\
  outcome (parse zeroCountFile)
  = Returned {| children := [Points [Fin 10; Fin 20; Fin 30]] |} /\
  declaredLineNum_D blankCountFile = None /\
  length (entitiesOf blankCountFile) = 1%nat /\
  outcome (parse blankCountFile)
  = Returned {| children := [Points [Fin 10; Fin 20; Fin 30]] |} /\
  ~ (forall data : str,
        outcome (parse data) = Thrown errInconsistent
        <-> match declaredLineNum_D data with
            | Some d => 2 * Z.of_nat (length (entitiesOf data)) <> d
            | None => True
            end).
Proof.
  repeat (split; [vm_compute; reflexivity|]).
  intros H. specialize (H zeroCountFile).
  assert (Ht : outcome (parse zeroCountFile) = Thrown errInconsistent);
    [|vm_compute in Ht; discriminate Ht].
  apply H. vm_compute. discriminate.
Qed.

(** *** Entity assembler *)

Lemma assignParams_lookup (sp : list (list str)) (es : list Entity) (a j : nat) :
  assignParams sp es a !! j
  = if decide (j = a)
    then match sp !! a with
         | Some paramArray => assigned paramArray <$> es !! a
         | None => es !! a
         end
    else es !! j.
Proof.
  unfold assignParams. destruct (es !! a) as [e|] eqn:He.
  - destruct (sp !! a) as [pa|].
    + destruct (decide (j = a)) as [->|Hne].
      * rewrite list_lookup_insert_eq; [reflexivity|].
        now apply lookup_lt_Some in He.
      * now rewrite list_lookup_insert_ne by congruence.
    + destruct (decide (j = a)) as [->|]; [now rewrite He | reflexivity].
  - destruct (decide (j = a)) as [->|]; [|reflexivity].
    rewrite He. now destruct (sp !! a).
Qed.

Lemma assignParams_fold (sp : list (list str)) (n a : nat) (es : list Entity)
    (j : nat) :
  fold_left (assignParams sp) (seq a n) es !! j
  = if decide (a <= j < a + n)%nat
    then match sp !! j with
         | Some paramArray => assigned paramArray <$> es !! j
         | None => es !! j
         end
    else es !! j.
Proof.
  revert a es; induction n as [|n IH]; intros a es.
  - simpl. destruct (decide _); [lia | reflexivity].
  - simpl. rewrite IH, !assignParams_lookup.
    destruct (decide (j = a)) as [->|Hne].
    + destruct (decide (S a <= a < S a + n)%nat); [lia|].
      destruct (decide (a <= a < a + S n)%nat); [reflexivity | lia].
    + destruct (decide (S a <= j < S a + n)%nat),
        (decide (a <= j < a + S n)%nat); try lia; reflexivity.
Qed.

Lemma parseParameter_lookup (iges : IGES) (data : str) (i : nat) :
  entities (parseParameter iges data) !! i
  = match pop (split (js ";") data) !! i with
    | Some segment => assigned (split (js ",") segment) <$> entities iges !! i
    | None => entities iges !! i
    end.
Proof.
  unfold parseParameter, setEntities. cbn [entities].
  rewrite assignParams_fold, length_map, list_lookup_fmap.
  destruct (pop (split (js ";") data) !! i) as [seg|] eqn:Hs; cbn [fmap option_fmap option_map].
  - pose proof (lookup_lt_Some _ _ _ Hs).
    destruct (decide _); [reflexivity | lia].
  - now destruct (decide _).
Qed.

(** C10, what the source does.  [parseDirection] leaves in every entity the
    type ["0"] that the constructor takes from its default attribute,
    whatever the record's entity-type field holds.  [parseParameter] then
    gives the entity of index [i] the leading token of the segment of index
    [i] as type and the decoded rest as parameters, when both exist; an
    entity without a segment is left as it is, and a segment without an
    entity is dropped.  In [directoryOnlyFile] the one record has the entity
    type 116 and no segment: the assembled entity has the type ["0"], not
    ["116"], and the synthesizer reports it as an unknown type. *)
Theorem directory_only_entity_type :
  (forall item : str, type (directionEntity item) = js "0") /\
  (forall (iges : IGES) (data : str) (i : nat),
      entities (parseParameter iges data) !! i
      = match pop (split (js ";") data) !! i with
        | Some segment =>
            assigned (split (js ",") segment) <$> entities iges !! i
        | None => entities iges !! i
        end) /\
  (exists e : Entity,
      entitiesOf directoryOnlyFile = [e] /\
      entityType (attr e) = Some 116 /\ type e = js "0" /\ params e = []) /\
  parse directoryOnlyFile
  = {| logged := [UnknownEntityType (js "0")];
       outcome := Returned {| children := [] |} |}.
Proof.
  split; [reflexivity|]. split; [exact parseParameter_lookup|]. split.
  - eexists. split; [vm_compute; reflexivity|]. repeat split; reflexivity.
  - vm_compute. reflexivity.
Qed.

(** C2, what the source does.  [parseParameter] splits on the literals [";"]
    and [","], whatever delimiters the accumulator holds; it agrees with the
    parser of the specification, which splits on the declared delimiters,
    when these are the defaults.  [customDelimiterFile] declares ['/'] and
    ['#'] in its Global section, and [parseGlobal] records them; its
    Parameter buffer, written with them, holds no [";"], so its only piece is
    popped, no segment is assigned, and the Point entity is lost, where the
    parser of the specification assembles the entity 116 with the parameters
    10, 20, 30.  The same data written with [","] and [";"] ([pointFile])
    gives the point. *)
Theorem parseParameter_ignores_declared_delimiters :
  (forall (iges : IGES) (fd td data : str),
      entities (parseParameter
                  {| fieldDelimiter := fd; termDelimiter := td;
                     entities := entities iges; comment := comment iges;
                     globals := globals iges; lineNums := lineNums iges |}
                  data)
      = entities (parseParameter iges data)) /\
  (forall (iges : IGES) (data : str),
      fieldDelimiter iges = js "," -> termDelimiter iges = js ";" ->
      parseParameter_declared iges data = parseParameter iges data) /\
  fieldDelimiter (parseSections (sectionsOf customDelimiterFile)) = js "/" /\
  termDelimiter (parseSections (sectionsOf customDelimiterFile)) = js "#" /\
  paramSec (sectionsOf customDelimiterFile) = js "116/10./20./30.#" /\
  (exists e : Entity,
      entitiesOf customDelimiterFile = [e] /\ type e = js "0" /\
      params e = []) /\
  (exists e : Entity,
      entities (parseParameter_declared
                  (beforeParameter (sectionsOf customDelimiterFile))
                  (paramSec (sectionsOf customDelimiterFile))) = [e] /\
      type e = js "116" /\ params e = [Fin 10; Fin 20; Fin 30]) /\
  parse customDelimiterFile
  = {| logged := [UnknownEntityType (js "0")];
       outcome := Returned {| children := [] |} |} /\
  parse pointFile
  = {| logged := [];
       outcome := Returned {| children := [Points [Fin 10; Fin 20; Fin 30]] |} |}.
Proof.
  split; [reflexivity|].
  split; [intros iges data Hf Ht; unfold parseParameter_declared;
          rewrite Hf, Ht; reflexivity|].
  repeat (split; [vm_compute; reflexivity|]).
  split; [|split; [|split; vm_compute; reflexivity]];
    (eexists; split; [vm_compute; reflexivity|]; split; reflexivity).
Qed.

Lemma parseParameter_ignores_declared_delimiters_witness :
  parseParameter_declared newIGES (js "116,1.;") = parseParameter newIGES (js "116,1.;").
Proof.
  apply (proj1 (proj2 parseParameter_ignores_declared_delimiters));
    reflexivity.
Defined.

(** *** Directory records *)

Lemma length_padStart (w : nat) (s : str) :
  (length s <= w)%nat -> length (padStart w s) = w.
Proof. intros H. unfold padStart. rewrite length_app, repeat_length. lia. Qed.

Lemma length_intField (w : nat) (z : Z) : fits w z -> length (intField w z) = w.
Proof. apply length_padStart. Qed.

Lemma parseInt_intField (w : nat) (z : Z) : parseInt (intField w z) = Some z.
Proof. apply parseInt_intToString_pad. Qed.

Lemma trim_padStart (w : nat) (s : str) : trim s = s -> trim (padStart w s) = s.
Proof.
  intros H. unfold trim, padStart. unfold SP. rewrite trimStart_spaces. exact H.
Qed.

Ltac explode H :=
  match type of H with
  | length ?l = _ =>
      repeat (destruct l as [|? l]; simpl in H; try discriminate H)
  end;
  clear H.

(** The columns each attribute is read from. *)
Lemma decodeAttr_layout
    (f1 f2 f3 f4 f5 f6 f7 f8 st : str) (c : ascii)
    (sq x1 lw col pl fm x2 nm sb x3 : str) :
  length f1 = 8%nat -> length f2 = 8%nat -> length f3 = 8%nat ->
  length f4 = 8%nat -> length f5 = 8%nat -> length f6 = 8%nat ->
  length f7 = 8%nat -> length f8 = 8%nat -> length st = 8%nat ->
  length sq = 7%nat -> length x1 = 8%nat -> length lw = 8%nat ->
  length col = 8%nat -> length pl = 8%nat -> length fm = 8%nat ->
  length x2 = 16%nat -> length nm = 8%nat -> length sb = 8%nat ->
  decodeAttr (f1 ++ f2 ++ f3 ++ f4 ++ f5 ++ f6 ++ f7 ++ f8 ++ st ++ [c] ++
              sq ++ x1 ++ lw ++ col ++ pl ++ fm ++ x2 ++ nm ++ sb ++ x3)
  = {| entityType := parseInt f1;
       entityIndex := parseInt f2;
       igesVersion := parseInt f3;
       lineType := parseInt f4;
       level := parseInt f5;
       view := parseInt f6;
       transMatrix := parseInt f7;
       labelDisp := parseInt f8;
       status := st;
       sequenceNumber := parseInt sq;
       lineWidth := parseInt lw;
       color := parseInt col;
       paramLine := parseInt pl;
       formNumber := parseInt fm;
       entityName := trim nm;
       entitySub := parseInt sb |}.
Proof.
  intros H1 H2 H3 H4 H5 H6 H7 H8 H9 H10 H11 H12 H13 H14 H15 H16 H17 H18.
  explode H1. explode H2. explode H3. explode H4. explode H5. explode H6.
  explode H7. explode H8. explode H9. explode H10. explode H11. explode H12.
  explode H13. explode H14. explode H15. explode H16. explode H17.
  explode H18.
  reflexivity.
Qed.

Lemma decodeAttr_encode (v : DirValues) :
  wellFormed v -> decodeAttr (encode v) = attr (expected v).
Proof.
  intros [].
  unfold encode. rewrite decodeAttr_layout;
    try (apply length_intField; assumption);
    try assumption; try (apply length_padStart; tauto).
  rewrite !parseInt_intField, trim_padStart by tauto. reflexivity.
Qed.

Lemma length_encode (v : DirValues) : wellFormed v -> length (encode v) = 160%nat.
Proof.
  intros []. unfold encode. rewrite !length_app.
  rewrite !length_intField by assumption.
  rewrite length_padStart by tauto. simpl length. lia.
Qed.

Lemma windows_cons (b rest : str) :
  length b = 160%nat -> windows (b ++ rest) = b :: windows rest.
Proof.
  intros Hb. unfold windows. rewrite length_app, Hb.
  replace (160 + length rest + 159)%nat
    with (1 * 160 + (length rest + 159))%nat by lia.
  rewrite Nat.div_add_l by lia.
  change (1 + ?m)%nat with (S m). cbn [seq map]. f_equal.
  - unfold substr. rewrite drop_0. rewrite <- Hb. apply take_app_length.
  - rewrite <- seq_shift, map_map. apply map_ext. intros j.
    unfold substr. f_equal. rewrite drop_app_ge by lia. f_equal. lia.
Qed.

Lemma windows_encoded (recs : list DirValues) :
  Forall wellFormed recs -> windows (concat (map encode recs)) = map encode recs.
Proof.
  induction 1 as [|v recs Hv _ IH]; [reflexivity|].
  cbn [map concat]. rewrite windows_cons by now apply length_encode.
  now rewrite IH.
Qed.





Example encode_lineRecord :
  encode lineRecord
  = js "     110       1       0       0       0       0       0       000000000D      1     110       0       0       1       0                    LINE       0D      2".
Proof. vm_compute. reflexivity. Qed.

(** ** Further properties of the loader *)

(** *** Splitting *)

Ltac not_in_concrete :=
  let H := fresh in
  intros H; repeat (apply elem_of_cons in H as [H|H]; [discriminate|]);
  (now apply elem_of_nil in H).

Lemma splitFrom_free (c : ascii) (a cur s : str) :
  c ∉ a -> splitFrom [c] 0 cur (a ++ s) = splitFrom [c] 0 (rev a ++ cur) s.
Proof.
  revert cur; induction a as [|x a IH]; intros cur H; [reflexivity|].
  apply not_elem_of_cons in H as [Hne H].
  cbn [app splitFrom isPrefix]. destruct (Ascii.eqb_spec c x); [congruence|].
  cbn [andb]. rewrite IH by assumption. cbn [rev]. now rewrite <- app_assoc.
Qed.

Lemma splitFrom_sep (c : ascii) (cur s : str) :
  splitFrom [c] 0 cur (c :: s) = rev cur :: splitFrom [c] 0 [] s.
Proof. cbn [splitFrom isPrefix]. now rewrite Ascii.eqb_refl. Qed.

Lemma split_free (c : ascii) (a : str) : c ∉ a -> split [c] a = [a].
Proof.
  intros H. unfold split. rewrite <- (app_nil_r a) at 1.
  rewrite splitFrom_free by assumption. cbn [splitFrom].
  now rewrite app_nil_r, rev_involutive.
Qed.

Lemma split_cons (c : ascii) (a b : str) :
  c ∉ a -> split [c] (a ++ c :: b) = a :: split [c] b.
Proof.
  intros H. unfold split. rewrite splitFrom_free, splitFrom_sep by assumption.
  now rewrite app_nil_r, rev_involutive.
Qed.

(** Splitting on a one-character separator undoes joining with it. *)
Lemma split_join_pieces (c : ascii) (pieces : list str) :
  pieces <> [] -> Forall (fun p => c ∉ p) pieces ->
  split [c] (join c pieces) = pieces.
Proof.
  intros Hne H. induction H as [|p rest Hp Hrest IH]; [congruence|].
  destruct rest as [|q rest].
  - simpl. now apply split_free.
  - cbn [join]. rewrite split_cons by assumption. f_equal.
    apply IH. discriminate.
Qed.

(** *** Line endings *)

Lemma splitLinesFrom_free (a cur s : str) :
  NL ∉ a -> splitLinesFrom cur (a ++ s) = splitLinesFrom (rev a ++ cur) s.
Proof.
  revert cur; induction a as [|x a IH]; intros cur H; [reflexivity|].
  apply not_elem_of_cons in H as [Hne H].
  cbn [app splitLinesFrom]. destruct (Ascii.eqb_spec x "010"); [now subst|].
  rewrite IH by assumption. cbn [rev]. now rewrite <- app_assoc.
Qed.

Lemma dropCR_rev (line : str) : noFinalCR line -> dropCR (rev line) = rev line.
Proof.
  unfold noFinalCR. destruct (rev line) as [|x r] eqn:E; [reflexivity|].
  intros H. simpl. destruct (Ascii.eqb_spec x "013") as [->|]; [|reflexivity].
  exfalso. apply H. rewrite <- (rev_involutive line), E. simpl.
  now rewrite last_snoc.
Qed.

Lemma splitLines_LF (lines : list str) :
  Forall (fun line => (NL ∉ line) /\ noFinalCR line) lines ->
  splitLines (unlines [NL] lines) = lines ++ [[]].
Proof.
  unfold splitLines. induction 1 as [|line lines [Hn Hc] _ IH]; [reflexivity|].
  unfold unlines. cbn [map concat]. rewrite <- !app_assoc.
  rewrite splitLinesFrom_free by assumption. cbn [app splitLinesFrom].
  change (Ascii.eqb NL "010") with true. cbv iota.
  rewrite app_nil_r, dropCR_rev, rev_involutive by assumption.
  f_equal. exact IH.
Qed.

Lemma splitLines_CRLF (lines : list str) :
  Forall (fun line => NL ∉ line) lines ->
  splitLines (unlines [CR; NL] lines) = lines ++ [[]].
Proof.
  unfold splitLines. induction 1 as [|line lines Hn _ IH]; [reflexivity|].
  unfold unlines. cbn [map concat]. rewrite <- !app_assoc.
  rewrite splitLinesFrom_free by assumption. cbn [app splitLinesFrom].
  change (Ascii.eqb CR "010") with false. cbv iota.
  change (Ascii.eqb NL "010") with true. cbv iota.
  cbn [dropCR]. change (Ascii.eqb CR "013") with true. cbv iota.
  rewrite app_nil_r, rev_involutive. f_equal. exact IH.
Qed.

Lemma filter_nonempty_snoc (lines : list str) :
  filter (fun item : str => (0 < length item)%nat) (lines ++ [[]])
  = filter (fun item : str => (0 < length item)%nat) lines.
Proof.
  rewrite filter_app.
  replace (filter (fun item : str => (0 < length item)%nat) [[]])
    with (@nil str) by reflexivity.
  now rewrite app_nil_r.
Qed.

(** X1.  Line endings do not matter: a text whose lines end with CR LF and
    the text of the same lines ending with LF give the same run, which is the
    run of [parseLines] on the non-empty lines.  (The lines hold no LF and do
    not end with a CR of their own.) *)
Theorem line_endings_agree (lines : list str) :
  Forall (fun line => (NL ∉ line) /\ noFinalCR line) lines ->
  parse (unlines [CR; NL] lines) = parse (unlines [NL] lines) /\
  parse (unlines [NL] lines)
  = parseLines (filter (fun item : str => (0 < length item)%nat) lines).
Proof.
  intros H. unfold parse, parseIges, nonEmptyLines.
  rewrite splitLines_LF by assumption.
  rewrite splitLines_CRLF by (eapply Forall_impl; [exact H|]; intros ? [? ?]; assumption).
  now rewrite filter_nonempty_snoc.
Qed.

Lemma line_endings_agree_witness :
  parse (unlines [CR; NL] [js "too short"; js ""; js "T"])
  = parse (unlines [NL] [js "too short"; js ""; js "T"]).
Proof.
  refine (proj1 (line_endings_agree [js "too short"; js ""; js "T"] _)).
  repeat constructor; try not_in_concrete; discriminate.
Defined.

(** *** Section splitter *)

Lemma cardsOf_cons (tag : string) (line : str) (lines : list str) :
  cardsOf tag (line :: lines)
  = if isCard tag line then line :: cardsOf tag lines else cardsOf tag lines.
Proof.
  unfold cardsOf. destruct (isCard tag line) eqn:E.
  - now rewrite filter_cons_True.
  - rewrite filter_cons_False; [reflexivity|]. now rewrite E.
Qed.

Lemma buffer_cons (tag : string) (cut : str -> str) (line : str)
    (lines : list str) :
  buffer tag cut (line :: lines)
  = if isCard tag line then cut line ++ buffer tag cut lines
    else buffer tag cut lines.
Proof.
  unfold buffer. rewrite cardsOf_cons. now destruct (isCard tag line).
Qed.

Lemma diagsFrom_cons (i : nat) (line : str) (lines : list str) :
  diagsFrom i (line :: lines)
  = match lineDiag i line with
    | Some d => d :: diagsFrom (S i) lines
    | None => diagsFrom (S i) lines
    end.
Proof.
  unfold diagsFrom. rewrite imap_cons. cbn [omap list_omap id].
  rewrite Nat.add_0_r.
  replace (imap ((fun j l => lineDiag (i + j) l) ∘ S) lines)
    with (imap (fun j l => lineDiag (S i + j) l) lines).
  - now destruct (lineDiag i line).
  - apply imap_ext. intros j l _. simpl. f_equal. lia.
Qed.

Lemma substr_cut (line : str) (k : nat) :
  (k <= 80)%nat -> substr (substr line 0 80) 0 k = substr line 0 k.
Proof.
  intros H. unfold substr. rewrite !drop_0, take_take. f_equal. lia.
Qed.

(** The section buffers and the warnings of the line loop, from any state
    of the buffers. *)
Lemma readLines_buffers (lines : list str) (i : nat) (secs : Sections) :
  readLines i lines secs
  = ({| startSec :=
          startSec secs ++ buffer "S" (fun l => trim (substr l 0 72)) lines;
        globalSec :=
          globalSec secs ++ buffer "G" (fun l => trim (substr l 0 72)) lines;
        dirSec := dirSec secs ++ buffer "D" (fun l => substr l 0 80) lines;
        paramSec :=
          paramSec secs ++ buffer "P" (fun l => trim (substr l 0 64)) lines;
        terminateSec :=
          terminateSec secs
          ++ buffer "T" (fun l => trim (substr l 0 72)) lines |},
     diagsFrom i lines).
Proof.
  revert i secs; induction lines as [|line lines IH]; intros i secs.
  - unfold buffer, cardsOf, diagsFrom. simpl. rewrite !app_nil_r.
    now destruct secs.
  - cbn [readLines]. rewrite !buffer_cons, diagsFrom_cons.
    unfold isCard, lineDiag.
    destruct (length line <? 73)%nat eqn:Hlen.
    + rewrite IH. reflexivity.
    + cbn [negb andb existsb]. unfold appendLine.
      destruct (eqs (substr line 72 1) (js "S")) eqn:ES.
      { apply eqs_eq in ES. rewrite ES, IH. cbn. now rewrite ?substr_cut, <- ?app_assoc by lia. }
      destruct (eqs (substr line 72 1) (js "G")) eqn:EG.
      { apply eqs_eq in EG. rewrite EG, IH. cbn. now rewrite ?substr_cut, <- ?app_assoc by lia. }
      destruct (eqs (substr line 72 1) (js "D")) eqn:ED.
      { apply eqs_eq in ED. rewrite ED, IH. cbn. now rewrite ?substr_cut, <- ?app_assoc by lia. }
      destruct (eqs (substr line 72 1) (js "P")) eqn:EP.
      { apply eqs_eq in EP. rewrite EP, IH. cbn. now rewrite ?substr_cut, <- ?app_assoc by lia. }
      destruct (eqs (substr line 72 1) (js "T")) eqn:ET.
      { apply eqs_eq in ET. rewrite ET, IH. cbn. now rewrite ?substr_cut, <- ?app_assoc by lia. }
      cbn [orb]. rewrite IH. reflexivity.
Qed.

(** X2.  The five section buffers are, each, the concatenation in file order
    of the lines that hold its tag in column 73, whatever way the sections
    interleave: Start, Global and Terminate lines cut to columns 1-72 and
    trimmed, Parameter lines cut to columns 1-64 and trimmed, Directory lines
    cut to 80 columns and not trimmed.  The warnings are one per line that is
    shorter than 73 code units or holds another tag, in line order, and none
    for the other lines. *)
Theorem section_buffers (lines : list str) :
  readLines 0 lines noSections
  = ({| startSec := buffer "S" (fun l => trim (substr l 0 72)) lines;
        globalSec := buffer "G" (fun l => trim (substr l 0 72)) lines;
        dirSec := buffer "D" (fun l => substr l 0 80) lines;
        paramSec := buffer "P" (fun l => trim (substr l 0 64)) lines;
        terminateSec := buffer "T" (fun l => trim (substr l 0 72)) lines |},
     diagsFrom 0 lines).
Proof. now rewrite readLines_buffers. Qed.

Lemma substr_take80 (line : str) :
  (73 <= length line)%nat -> substr (take 80 line) 72 1 = substr line 72 1.
Proof.
  intros H. unfold substr. rewrite <- (take_drop 80 line) at 2.
  rewrite drop_app_le by (rewrite length_take; lia).
  rewrite take_app_le; [reflexivity|].
  rewrite length_drop, length_take. lia.
Qed.

Lemma readLines_take80 (lines : list str) (i : nat) (secs : Sections) :
  readLines i (map (take 80) lines) secs = readLines i lines secs.
Proof.
  revert i secs; induction lines as [|line lines IH]; intros i secs;
    [reflexivity|].
  cbn [map readLines]. rewrite length_take.
  destruct (Nat.ltb_spec (length line) 73) as [Hs|Hl].
  - destruct (Nat.ltb_spec (80 `min` length line) 73); [|lia].
    rewrite IH, (take_ge line 80) by lia.
    replace (80 `min` length line)%nat with (length line) by lia.
    reflexivity.
  - destruct (Nat.ltb_spec (80 `min` length line) 73); [lia|].
    rewrite substr_take80 by lia.
    replace (substr (take 80 line) 0 80) with (substr line 0 80)
      by (unfold substr; rewrite !drop_0, take_take; f_equal; lia).
    destruct (appendLine _ _ _); now rewrite IH.
Qed.

(** X3.  Nothing beyond column 80 is read: the run on the lines cut to 80
    code units is the run on the lines, console included. *)
Theorem columns_beyond_80_ignored (lines : list str) :
  parseLines (map (take 80) lines) = parseLines lines.
Proof. unfold parseLines. now rewrite readLines_take80. Qed.

Lemma entities_parseSections (secs : Sections) :
  entities (parseSections secs)
  = entities (parseParameter (parseDirection newIGES (dirSec secs))
                (paramSec secs)).
Proof. reflexivity. Qed.

Lemma outcomeOf_DPT (secs secs' : Sections) :
  dirSec secs = dirSec secs' -> paramSec secs = paramSec secs' ->
  terminateSec secs = terminateSec secs' ->
  outcomeOf secs = outcomeOf secs'.
Proof.
  intros HD HP HT. unfold outcomeOf, parseTerminate. cbn [entities lineNum_D].
  rewrite !entities_parseSections, HD, HP, HT.
  destruct (inconsistent _ _); reflexivity.
Qed.

(** X4.  How a run ends (the group it returns, or the error) is decided by
    the Directory, Parameter and Terminate lines alone, each kind in its own
    order: two lists of lines with the same D lines, the same P lines and the
    same T lines end the same way, whatever their Start and Global lines,
    their short lines, their lines of unknown tag, and the way the sections
    interleave. *)
Theorem outcome_depends_on_DPT (lines lines' : list str) :
  cardsOf "D" lines = cardsOf "D" lines' ->
  cardsOf "P" lines = cardsOf "P" lines' ->
  cardsOf "T" lines = cardsOf "T" lines' ->
  outcome (parseLines lines) = outcome (parseLines lines').
Proof.
  intros HD HP HT. rewrite !outcome_parseLines, !readLines_buffers.
  apply outcomeOf_DPT; cbn [fst dirSec paramSec terminateSec noSections app];
    unfold buffer; congruence.
Qed.

Lemma outcome_depends_on_DPT_witness :
  outcome (parseLines (nonEmptyLines bareFile))
  = outcome (parseLines (nonEmptyLines pointFile)).
Proof.
  apply outcome_depends_on_DPT; vm_compute; reflexivity.
Defined.

Lemma length_entities_parseSections (secs : Sections) :
  length (entities (parseSections secs))
  = ((length (dirSec secs) + 159) / 160)%nat.
Proof.
  rewrite entities_parseSections.
  assert (H : forall iges data,
             length (entities (parseParameter iges data))
             = length (entities iges)).
  { intros iges data. unfold parseParameter, setEntities. cbn [entities].
    generalize (map (split (js ",")) (pop (split (js ";") data))) as sp.
    intros sp. generalize (seq 0 (length sp)) as idx.
    intros idx. generalize (entities iges) as es.
    induction idx as [|a idx IH]; intros es; [reflexivity|].
    cbn [fold_left]. rewrite IH. unfold assignParams.
    destruct (es !! a); [|reflexivity].
    destruct (sp !! a); [|reflexivity]. apply length_insert. }
  rewrite H. unfold parseDirection, setEntities, windows. cbn [entities newIGES].
  now rewrite app_nil_l, !length_map, length_seq.
Qed.

Lemma length_buffer_D (lines : list str) :
  Forall (fun line => (80 <= length line)%nat) (cardsOf "D" lines) ->
  length (buffer "D" (fun l => substr l 0 80) lines)
  = (80 * length (cardsOf "D" lines))%nat.
Proof.
  unfold buffer. induction 1 as [|line cards Hl _ IH]; [reflexivity|].
  cbn [map concat length]. rewrite length_app, IH.
  unfold substr. rewrite drop_0, length_take. lia.
Qed.

(** X5.  When every Directory line has at least 80 code units, the number
    of assembled entities is the number of Directory lines divided by 2,
    rounded up, and the parse throws exactly when the Directory count of the
    Terminate section parses to a number that is neither 0 nor twice that
    number of entities; so an odd number of Directory lines with its own
    count declared always throws. *)
Theorem entity_count_from_D_lines (data : str) :
  Forall (fun line => (80 <= length line)%nat)
    (cardsOf "D" (nonEmptyLines data)) ->
  let nD := length (cardsOf "D" (nonEmptyLines data)) in
  length (entitiesOf data) = ((nD + 1) / 2)%nat /\
  (outcome (parse data) = Thrown errInconsistent
   <-> exists d : Z,
         declaredLineNum_D data = Some d /\ d <> 0 /\
         d <> 2 * Z.of_nat ((nD + 1) / 2)).
Proof.
  intros H nD.
  assert (Hn : length (entitiesOf data) = ((nD + 1) / 2)%nat).
  { unfold entitiesOf, sectionsOf. rewrite length_entities_parseSections.
    rewrite readLines_buffers. cbn [fst dirSec noSections app].
    rewrite length_buffer_D by assumption. fold nD.
    replace (80 * nD + 159)%nat with ((nD + 1) * 80 + 79)%nat by lia.
    change 160%nat with (80 * 2)%nat.
    rewrite <- Nat.Div0.div_div.
    rewrite Nat.div_add_l by lia.
    change (79 / 80)%nat with 0%nat. now rewrite Nat.add_0_r. }
  split; [exact Hn|].
  unfold parse, parseIges. rewrite outcome_parseLines. fold (sectionsOf data).
  rewrite outcomeOf_thrown, inconsistent_spec.
  fold (entitiesOf data). fold (declaredLineNum_D data). rewrite Hn.
  split.
  - intros (_ & d & Hd & Hz & Hne). exists d. repeat split; auto.
  - intros (d & Hd & Hz & Hne). split; [reflexivity|]. exists d.
    repeat split; auto.
Qed.

Lemma entity_count_from_D_lines_witness :
  length (entitiesOf wrongCountFile) = ((2 + 1) / 2)%nat.
Proof.
  refine (proj1 (entity_count_from_D_lines wrongCountFile _)).
  vm_compute. repeat constructor.
Defined.

(** *** Field decoder *)

Lemma allDigits_not_in (c : ascii) (s : str) :
  isDigit c = false -> allDigits s = true -> c ∉ s.
Proof.
  intros Hc. induction s as [|x s IH]; simpl; [intros _; apply not_elem_of_nil|].
  rewrite andb_true_iff. intros [Hx Hs]. apply not_elem_of_cons.
  split; [congruence | now apply IH].
Qed.

Lemma intToString_nat_digits (n : nat) :
  allDigits (intToString (Some (Z.of_nat n))) = true /\
  intToString (Some (Z.of_nat n)) <> [].
Proof.
  destruct (Z.of_nat n) as [|p|p] eqn:E; [now split| |lia].
  unfold intToString, Z.to_int, NilZero.string_of_int.
  pose proof (DecimalPos.Unsigned.to_uint_nonnil p) as Hn.
  rewrite (nilzero_nonnil _ Hn). split; [apply uint_allDigits|].
  now apply uint_nonempty.
Qed.

(** X6.  The Hollerith decoder reads back a Hollerith string, whatever
    follows it: [parseIgesString] of the decimal length of [s], ['H'], [s]
    and any rest is [s]. *)
Theorem parseIgesString_hollerith_round_trip (s rest : str) :
  parseIgesString (hollerith s ++ rest) = Some s.
Proof.
  unfold hollerith, parseIgesString.
  destruct (intToString_nat_digits (length s)) as [Hd _].
  rewrite <- app_assoc. cbn [app].
  rewrite indexOf_first by (apply allDigits_not_in; [reflexivity | exact Hd]).
  rewrite substr_prefix, parseInt_intToString, substr_after.
  cbn [lengthArg]. rewrite Nat2Z.id.
  now rewrite take_app_length.
Qed.









Lemma replaceD_app (a b : str) : replaceD (a ++ b) = replaceD a ++ replaceD b.
Proof. apply map_app. Qed.

Lemma replaceD_spaces (k : nat) : replaceD (spaces k) = spaces k.
Proof. unfold spaces, replaceD. induction k; simpl; congruence. Qed.













(** X10.  What is not a number decodes to [NaN] and nothing is thrown: a
    token of blanks only (the empty token included), and a token whose
    first code unit after the blanks is neither a digit, a sign, a point nor
    ['I']. *)
Theorem parseIgesFloat_not_a_number :
  (forall k : nat, parseIgesFloat (spaces k) = NaN) /\
  (forall (k : nat) (c : ascii) (r : str),
      isDigit c = false -> isWhiteSpace c = false ->
      c <> "+"%char -> c <> "-"%char -> c <> "."%char -> c <> "I"%char ->
      parseIgesFloat (spaces k ++ c :: r) = NaN).
Proof.
  split.
  - intros k. unfold parseIgesFloat, parseFloat. rewrite replaceD_spaces.
    unfold spaces. rewrite <- (app_nil_r (repeat _ k)), trimStart_spaces.
    reflexivity.
  - intros k c r Hd Hw Hp Hm Hdot HI.
    unfold parseIgesFloat. rewrite replaceD_app, replaceD_spaces.
    cbn [replaceD map].
    set (c' := if Ascii.eqb c "D" then "e"%char else c).
    assert (Hc' : isDigit c' = false /\ isWhiteSpace c' = false /\
                  c' <> "+"%char /\ c' <> "-"%char /\ c' <> "."%char /\
                  c' <> "I"%char).
    { unfold c'. destruct (Ascii.eqb c "D"); repeat split;
        (assumption || discriminate || reflexivity). }
    destruct Hc' as (Hd' & Hw' & Hp' & Hm' & Hdot' & HI').
    unfold parseFloat, spaces. rewrite trimStart_spaces. cbn [trimStart].
    rewrite Hw'. unfold stripSign.
    destruct (Ascii.eqb_spec c' "-"); [congruence|].
    destruct (Ascii.eqb_spec c' "+"); [congruence|].
    cbn [js list_ascii_of_string isPrefix].
    destruct (Ascii.eqb_spec "I" c'); [congruence|]. cbn [andb].
    cbn [spanDigits]. rewrite Hd'.
    destruct (Ascii.eqb_spec c' "."); [congruence|]. reflexivity.
Qed.

Lemma parseIgesFloat_not_a_number_witness :
  parseIgesFloat (spaces 2 ++ "D"%char :: js "12") = NaN.
Proof.
  apply (proj2 parseIgesFloat_not_a_number); (reflexivity || discriminate).
Defined.

(** *** Section parsers *)

Lemma orElse_nonempty (o : option str) (d : str) : d <> [] -> orElse o d <> [].
Proof. intros H. destruct o as [[|c s]|]; simpl; congruence. Qed.

Lemma elem_of_rev_1 (c : ascii) (l : str) : c ∈ rev l -> c ∈ l.
Proof. rewrite !list_elem_of_In. apply in_rev. Qed.

Lemma splitFrom_chars (sep : str) (s : str) (skip : nat) (cur : str) :
  Forall (fun piece => forall c, c ∈ piece -> c ∈ cur \/ c ∈ s)
    (splitFrom sep skip cur s).
Proof.
  revert skip cur; induction s as [|x s IH]; intros skip cur.
  - cbn [splitFrom]. constructor; [|constructor]. intros c Hc. left.
    now apply elem_of_rev_1 in Hc.
  - cbn [splitFrom]. destruct skip as [|k].
    + destruct (isPrefix sep (x :: s)).
      * constructor.
        -- intros c Hc. left. now apply elem_of_rev_1 in Hc.
        -- eapply Forall_impl; [apply IH|]. intros piece Hp c Hc.
           destruct (Hp c Hc) as [H|H]; [now apply elem_of_nil in H|].
           right. now apply elem_of_cons; right.
      * eapply Forall_impl; [apply IH|]. intros piece Hp c Hc.
        destruct (Hp c Hc) as [H|H].
        -- apply elem_of_cons in H as [->|H]; [right; apply elem_of_cons; now left|].
           now left.
        -- right. now apply elem_of_cons; right.
    + eapply Forall_impl; [apply IH|]. intros piece Hp c Hc.
      destruct (Hp c Hc) as [H|H]; [now left|].
      right. now apply elem_of_cons; right.
Qed.

Lemma split_chars (sep s piece : str) (c : ascii) :
  piece ∈ split sep s -> c ∈ piece -> c ∈ s.
Proof.
  intros Hp Hc. pose proof (splitFrom_chars sep s 0 []) as H.
  rewrite Forall_forall in H. destruct (H piece Hp c Hc) as [H'|H']; [|exact H'].
  now apply elem_of_nil in H'.
Qed.

Lemma fieldOrEmpty_chars (fields : list str) (i : nat) (c : ascii) :
  c ∈ fieldOrEmpty fields i -> exists piece, piece ∈ fields /\ c ∈ piece.
Proof.
  unfold fieldOrEmpty. destruct (fields !! i) as [p|] eqn:E; simpl.
  - intros H. exists p. split; [|exact H]. now apply list_elem_of_lookup_2 in E.
  - intros H. now apply elem_of_nil in H.
Qed.

(** X11.  The two delimiters that [parseGlobal] leaves are never empty (the
    field delimiter it was given being not empty), and a Global buffer that
    holds no ['H'] leaves the defaults [","] and [";"]. *)
Theorem parseGlobal_delimiters (iges : IGES) (data : str) :
  (fieldDelimiter iges <> [] ->
   fieldDelimiter (parseGlobal iges data) <> [] /\
   termDelimiter (parseGlobal iges data) <> []) /\
  (fieldDelimiter iges = js "," -> "H"%char ∉ data ->
   fieldDelimiter (parseGlobal iges data) = js "," /\
   termDelimiter (parseGlobal iges data) = js ";").
Proof.
  split.
  - intros H. unfold parseGlobal. cbn [fieldDelimiter termDelimiter]. split.
    + destruct (firstIsNotComma data); [|exact H].
      now apply orElse_nonempty.
    + now apply orElse_nonempty.
  - intros Hf Hno. unfold parseGlobal. cbn [fieldDelimiter termDelimiter].
    assert (Hd : parseIgesString data = None).
    { unfold parseIgesString. apply indexOf_None in Hno. now rewrite Hno. }
    assert (Hfd : (if firstIsNotComma data
                   then orElse (parseIgesString data) (js ",")
                   else fieldDelimiter iges) = js ",").
    { destruct (firstIsNotComma data); [now rewrite Hd | exact Hf]. }
    rewrite Hfd. split; [reflexivity|].
    match goal with
    | |- orElse (parseIgesString ?f) _ = _ =>
        assert (Hfield : "H"%char ∉ f)
    end.
    { intros Hin. apply fieldOrEmpty_chars in Hin as (piece & Hp & Hc).
      apply Hno. apply (split_chars (js ",") data piece); [|exact Hc].
      destruct (firstIsNotComma data); [|exact Hp].
      apply list_elem_of_lookup in Hp as [i Hi]. rewrite lookup_drop in Hi.
      now apply list_elem_of_lookup_2 in Hi. }
    unfold parseIgesString. apply indexOf_None in Hfield. now rewrite Hfield.
Qed.

Lemma parseGlobal_delimiters_witness :
  (fieldDelimiter (parseGlobal newIGES (js "0H,0H")) <> [] /\
   termDelimiter (parseGlobal newIGES (js "0H,0H")) <> []) /\
  (fieldDelimiter (parseGlobal newIGES (js ",,4,5")) = js "," /\
   termDelimiter (parseGlobal newIGES (js ",,4,5")) = js ";").
Proof.
  split.
  - apply (proj1 (parseGlobal_delimiters newIGES (js "0H,0H"))).
    discriminate.
  - apply (proj2 (parseGlobal_delimiters newIGES (js ",,4,5")));
      [reflexivity | not_in_concrete].
Defined.

Lemma not_in_js_1H (c : ascii) :
  c <> "1"%char -> c <> "H"%char -> c ∉ js "1H".
Proof.
  intros H1 HH Hin. cbn in Hin.
  apply elem_of_cons in Hin as [->|Hin]; [congruence|].
  apply elem_of_cons in Hin as [->|Hin]; [congruence|].
  now apply elem_of_nil in Hin.
Qed.

Lemma split_sep_first (c : ascii) (s : str) :
  split [c] (c :: s) = [] :: split [c] s.
Proof. unfold split. now rewrite splitFrom_sep. Qed.

Lemma split_globalBuffer (c t : ascii) (fs : list str) :
  c <> "1"%char -> c <> "H"%char -> t <> c ->
  fs <> [] -> Forall (fun f => c ∉ f) fs ->
  split [c] (globalBuffer c t fs) = js "1H" :: [] :: (js "1H" ++ [t]) :: fs.
Proof.
  intros H1 HH Ht Hne Hfs. unfold globalBuffer.
  rewrite split_cons by now apply not_in_js_1H.
  rewrite split_sep_first.
  change (js "1H" ++ t :: c :: join c fs)
    with ((js "1H" ++ [t]) ++ c :: join c fs).
  rewrite split_cons.
  - now rewrite split_join_pieces.
  - intros Hin. apply elem_of_app in Hin as [Hin|Hin].
    + now apply (not_in_js_1H c H1 HH).
    + apply elem_of_cons in Hin as [->|Hin]; [congruence|].
      now apply elem_of_nil in Hin.
Qed.

(** X12.  A Global buffer that declares its delimiters, ["1H"], [c], [c],
    ["1H"], [t], [c] and then the fields [fs] joined by [c], leaves [c] as
    field delimiter and [t] as terminator, and maps the fields by position:
    the Hollerith fields (export id, file name, system id, translator
    version, receiver id, unit, creation date, author, organisation,
    modification date) are decoded, the others are kept as text, and a field
    that is not there is [undefined]. *)
Theorem parseGlobal_declared (iges : IGES) (c t : ascii) (fs : list str) :
  c <> "1"%char -> c <> "H"%char -> t <> c ->
  fs <> [] -> Forall (fun f => c ∉ f) fs ->
  let hol i := parseIgesString (fieldOrEmpty fs i) in
  fieldDelimiter (parseGlobal iges (globalBuffer c t fs)) = [c] /\
  termDelimiter (parseGlobal iges (globalBuffer c t fs)) = [t] /\
  globals (parseGlobal iges (globalBuffer c t fs))
  = Some {| exportID := hol 0%nat;
            fileName := hol 1%nat;
            systemID := hol 2%nat;
            translateVer := hol 3%nat;
            integerBits := fs !! 4%nat;
            singleExpBits := fs !! 5%nat;
            singleMantissaBits := fs !! 6%nat;
            doubleExpBits := fs !! 7%nat;
            doubleMantissaBits := fs !! 8%nat;
            receiveID := hol 9%nat;
            scale := fs !! 10%nat;
            unitFlag := fs !! 11%nat;
            unit_ := hol 12%nat;
            maxStep := fs !! 13%nat;
            maxWidth := fs !! 14%nat;
            createDate := hol 15%nat;
            resolution := fs !! 16%nat;
            maxValue := fs !! 17%nat;
            createUser := hol 18%nat;
            createOrg := hol 19%nat;
            igesVer := fs !! 20%nat;
            formatCode := fs !! 21%nat;
            lastModifiedDate := hol 22%nat |}.
Proof.
  intros H1 HH Ht Hne Hfs hol. unfold parseGlobal.
  cbn [fieldDelimiter termDelimiter globals].
  assert (Hfirst : firstIsNotComma (globalBuffer c t fs) = true) by reflexivity.
  rewrite Hfirst.
  assert (Hfd : orElse (parseIgesString (globalBuffer c t fs)) (js ",") = [c])
    by reflexivity.
  rewrite Hfd, split_globalBuffer by assumption.
  cbn [drop]. split; [reflexivity|]. split; reflexivity.
Qed.

Lemma parseGlobal_declared_witness :
  fieldDelimiter
    (parseGlobal newIGES
       (globalBuffer "/" "#" [hollerith (js "point"); js "32"])) = ["/"%char].
Proof.
  refine (proj1 (parseGlobal_declared newIGES "/" "#"
                   [hollerith (js "point"); js "32"] _ _ _ _ _));
    try discriminate.
  repeat constructor; vm_compute; not_in_concrete.
Defined.

Lemma terminate_layout (c0 c1 c2 c3 : ascii) (f1 f2 f3 f4 rest : str) :
  length f1 = 7%nat -> length f2 = 7%nat -> length f3 = 7%nat ->
  length f4 = 7%nat ->
  let data := c0 :: f1 ++ c1 :: f2 ++ c2 :: f3 ++ c3 :: f4 ++ rest in
  substr data 1 7 = f1 /\ substr data 9 7 = f2 /\
  substr data 17 7 = f3 /\ substr data 25 7 = f4.
Proof.
  intros H1 H2 H3 H4.
  explode H1. explode H2. explode H3. explode H4.
  repeat split; unfold substr; cbn [drop app take]; reflexivity.
Qed.

(** X13.  [parseTerminate] reads the four counts from columns 2-8, 10-16,
    18-24 and 26-32 of the Terminate buffer and does not read columns 1, 9,
    17 and 25: on a buffer that holds the integers [s], [g], [d], [p] there it
    throws when [d] is not 0 and differs from twice the number of entities,
    and otherwise records exactly these four counts and leaves the
    delimiters, the entities, the comment and the Global fields as they
    were. *)
Theorem parseTerminate_round_trip (iges : IGES) (c0 c1 c2 c3 : ascii)
    (s g d p : Z) (rest : str) :
  fits 7 s -> fits 7 g -> fits 7 d -> fits 7 p ->
  parseTerminate iges (terminateBuffer c0 c1 c2 c3 s g d p rest)
  = if negb (d =? 0) && negb (2 * Z.of_nat (length (entities iges)) =? d)
    then inl errInconsistent
    else inr {| fieldDelimiter := fieldDelimiter iges;
                termDelimiter := termDelimiter iges;
                entities := entities iges;
                comment := comment iges;
                globals := globals iges;
                lineNums :=
                  Some {| lineNum_S := Some s; lineNum_G := Some g;
                          lineNum_D := Some d; lineNum_P := Some p |} |}.
Proof.
  intros Hs Hg Hd Hp. unfold parseTerminate, terminateBuffer.
  destruct (terminate_layout c0 c1 c2 c3 (intField 7 s) (intField 7 g)
              (intField 7 d) (intField 7 p) rest)
    as (E1 & E2 & E3 & E4); try (now apply length_intField).
  cbv zeta in E1, E2, E3, E4. rewrite E1, E2, E3, E4.
  rewrite !parseInt_intField. reflexivity.
Qed.

Lemma parseTerminate_round_trip_witness :
  parseTerminate newIGES (terminateBuffer "S" "G" "D" "P" 1 3 0 2 [])
  = inr {| fieldDelimiter := js ","; termDelimiter := js ";";
           entities := []; comment := None; globals := None;
           lineNums :=
             Some {| lineNum_S := Some 1; lineNum_G := Some 3;
                     lineNum_D := Some 0; lineNum_P := Some 2 |} |}.
Proof.
  refine (parseTerminate_round_trip newIGES "S" "G" "D" "P" 1 3 0 2 [] _ _ _ _);
    unfold fits; vm_compute; lia.
Defined.

(** *** Parameter records *)

Lemma pop_snoc {A} (l : list A) (x : A) : pop (l ++ [x]) = l.
Proof.
  unfold pop. rewrite length_app. cbn [length].
  replace (length l + 1 - 1)%nat with (length l) by lia.
  apply take_app_length.
Qed.

Lemma not_in_join (c d : ascii) (pieces : list str) :
  c <> d -> Forall (fun p => c ∉ p) pieces -> c ∉ join d pieces.
Proof.
  intros Hne H. induction H as [|p rest Hp _ IH]; [apply not_elem_of_nil|].
  destruct rest as [|q rest]; [exact Hp|]. cbn [join].
  intros Hin. apply elem_of_app in Hin as [Hin|Hin]; [contradiction|].
  apply elem_of_cons in Hin as [->|Hin]; [congruence | contradiction].
Qed.

Lemma split_paramBuffer (records : list (list str)) (tail : str) :
  Forall (Forall plainToken) records -> ";"%char ∉ tail ->
  split (js ";") (paramBuffer records ++ tail)
  = map (join ","%char) records ++ [tail].
Proof.
  intros H Htail. induction H as [|tokens records Ht _ IH].
  - cbn. now apply split_free.
  - unfold paramBuffer. cbn [map concat]. rewrite <- !app_assoc.
    cbn [js list_ascii_of_string app].
    rewrite split_cons.
    + cbn [map app]. f_equal. exact IH.
    + apply not_in_join; [discriminate|].
      eapply Forall_impl; [exact Ht|]. intros ? [? ?]; assumption.
Qed.

(** X14.  [parseParameter] reads back a Parameter buffer record by record:
    when every record of the buffer is a non-empty list of tokens (without
    [","] and [";"]) joined by [","] and ended by [";"], the entity of index
    [i] takes the first token of the record of index [i] as type and the
    decoded others as parameters, and keeps its attributes; an entity beyond
    the records is left as it is.  What follows the last [";"] is not
    read. *)
Theorem parseParameter_round_trip (iges : IGES) (records : list (list str))
    (tail : str) (i : nat) :
  Forall (Forall plainToken) records -> Forall (fun r => r <> []) records ->
  ";"%char ∉ tail ->
  entities (parseParameter iges (paramBuffer records ++ tail)) !! i
  = match records !! i with
    | Some tokens => assigned tokens <$> entities iges !! i
    | None => entities iges !! i
    end.
Proof.
  intros Hp Hne Htail. rewrite parseParameter_lookup.
  rewrite split_paramBuffer, pop_snoc, list_lookup_fmap by assumption.
  destruct (records !! i) as [tokens|] eqn:E; [|reflexivity].
  cbn [fmap option_fmap option_map].
  change (js ",") with [","%char]. rewrite split_join_pieces; [reflexivity| |].
  - eapply Forall_lookup_1 in Hne; eauto.
  - eapply Forall_lookup_1 in Hp; [|exact E].
    eapply Forall_impl; [exact Hp|]. intros ? [? ?]; assumption.
Qed.

Lemma plainToken_concrete (s : string) :
  forallb (fun c => negb (Ascii.eqb c ",") && negb (Ascii.eqb c ";")) (js s) = true ->
  plainToken (js s).
Proof.
  unfold plainToken. induction (js s) as [|c l IH]; simpl.
  - intros _. split; apply not_elem_of_nil.
  - rewrite !andb_true_iff, !negb_true_iff. intros [[H1 H2] H].
    destruct (IH H) as [IH1 IH2].
    split; apply not_elem_of_cons; (split; [|assumption]);
      intros E; rewrite <- E in *; discriminate.
Qed.

Lemma parseParameter_round_trip_witness :
  entities (parseParameter (parseDirection newIGES (encode lineRecord))
              (paramBuffer [[js "110"; js "1."; js "2D0"]] ++ js "116,5"))
    !! 0%nat
  = assigned [js "110"; js "1."; js "2D0"]
      <$> entities (parseDirection newIGES (encode lineRecord)) !! 0%nat.
Proof.
  refine (parseParameter_round_trip _ [[js "110"; js "1."; js "2D0"]]
            (js "116,5") 0 _ _ _).
  - repeat constructor; apply plainToken_concrete; reflexivity.
  - repeat constructor; discriminate.
  - not_in_concrete.
Defined.

(** X15.  [parseParameter] keeps the number of entities and every
    attribute record: it changes types and parameters only. *)
Theorem parseParameter_keeps_attributes (iges : IGES) (data : str) :
  map attr (entities (parseParameter iges data)) = map attr (entities iges).
Proof.
  apply list_eq. intros i. rewrite !list_lookup_fmap, parseParameter_lookup.
  destruct (pop (split (js ";") data) !! i); [|reflexivity].
  now destruct (entities iges !! i).
Qed.

(** *** Geometry synthesizer *)

Lemma at_app_r (pre l : list number) (k : nat) :
  at_ (pre ++ l) (length pre + k) = at_ l k.
Proof.
  unfold at_. rewrite lookup_app_r by lia.
  now replace (length pre + k - length pre)%nat with k by lia.
Qed.

Lemma read_flat3 (pre : list number) (points : list Vector3)
    (rest : list number) :
  map (fun i => (at_ (pre ++ flat3 points ++ rest) (length pre + 3 * i),
                 at_ (pre ++ flat3 points ++ rest) (length pre + 3 * i + 1),
                 at_ (pre ++ flat3 points ++ rest) (length pre + 3 * i + 2)))
    (seq 0 (length points))
  = points.
Proof.
  revert pre; induction points as [|[[x y] z] points IH]; intros pre;
    [reflexivity|].
  cbn [length seq map]. f_equal.
  - rewrite <- !Nat.add_assoc, !at_app_r. reflexivity.
  - rewrite <- seq_shift, map_map.
    specialize (IH (pre ++ [x; y; z])).
    rewrite <- IH at 2. apply map_ext. intros i.
    unfold flat3. cbn [map concat]. rewrite <- !app_assoc. cbn [app].
    rewrite !length_app. cbn [length].
    replace (length pre + 3 * S i)%nat with (length pre + 3 + 3 * i)%nat by lia.
    reflexivity.
Qed.

Lemma read_flat2 (pre : list number) (points : list Vector2)
    (rest : list number) (z : number) :
  map (fun i => (at_ (pre ++ flat2 points ++ rest) (length pre + 2 * i),
                 at_ (pre ++ flat2 points ++ rest) (length pre + 2 * i + 1),
                 z))
    (seq 0 (length points))
  = map (fun '(x, y) => (x, y, z)) points.
Proof.
  revert pre; induction points as [|[x y] points IH]; intros pre;
    [reflexivity|].
  cbn [length seq map]. f_equal.
  - rewrite <- !Nat.add_assoc, !at_app_r. reflexivity.
  - rewrite <- seq_shift, map_map.
    specialize (IH (pre ++ [x; y])).
    rewrite <- IH. apply map_ext. intros i.
    unfold flat2. cbn [map concat]. rewrite <- !app_assoc. cbn [app].
    rewrite !length_app. cbn [length].
    replace (length pre + 2 * S i)%nat with (length pre + 2 + 2 * i)%nat by lia.
    reflexivity.
Qed.

(** X16.  A Line entity (type 110) whose form number is 0, 2 or [NaN] adds
    one [Line] of two points, read from the first six parameters, and writes
    nothing; a coordinate that is missing is [NaN]. *)
Theorem drawLine_endpoints (entity : Entity) :
  type entity = js "110" ->
  formNumber (attr entity) = Some 0 \/ formNumber (attr entity) = Some 2 \/
  formNumber (attr entity) = None ->
  let ps := params entity in
  drawEntity entity
  = Some ([Line [(at_ ps 0, at_ ps 1, at_ ps 2);
                 (at_ ps 3, at_ ps 4, at_ ps 5)]], []) /\
  forall x1 y1 z1 x2 y2 z2 rest,
    ps = x1 :: y1 :: z1 :: x2 :: y2 :: z2 :: rest ->
    drawEntity entity = Some ([Line [(x1, y1, z1); (x2, y2, z2)]], []).
Proof.
  intros Ht Hf ps.
  assert (H : drawEntity entity
              = Some ([Line [(at_ ps 0, at_ ps 1, at_ ps 2);
                             (at_ ps 3, at_ ps 4, at_ ps 5)]], [])).
  { unfold drawEntity. rewrite Ht. cbn. unfold drawLine.
    destruct Hf as [-> | [-> | ->]]; reflexivity. }
  split; [exact H|]. intros x1 y1 z1 x2 y2 z2 rest Hps. rewrite H, Hps.
  reflexivity.
Qed.

Lemma drawLine_endpoints_witness :
  drawEntity {| type := js "110"; attr := decodeAttr (spaces 160);
                params := map ofZ [1; 2; 3; 4; 5; 6] |}
  = Some ([Line [(ofZ 1, ofZ 2, ofZ 3); (ofZ 4, ofZ 5, ofZ 6)]], []).
Proof.
  refine (proj2 (drawLine_endpoints
                   {| type := js "110"; attr := decodeAttr (spaces 160);
                      params := map ofZ [1; 2; 3; 4; 5; 6] |} _ _)
            _ _ _ _ _ _ [] _);
    [reflexivity | right; right; reflexivity | reflexivity].
Defined.

(** X17.  A linear path (type 106, form 12) whose parameters are a flag, the
    number [N] of points and then [N] triples adds one [Line] through exactly
    these [N] points, in order, whatever follows the triples. *)
Theorem drawPath_form12 (entity : Entity) (ip : number)
    (points : list Vector3) (rest : list number) :
  type entity = js "106" -> formNumber (attr entity) = Some 12 ->
  params entity = ip :: ofNat (length points) :: flat3 points ++ rest ->
  drawEntity entity = Some ([Line points], []).
Proof.
  intros Ht Hf Hps. unfold drawEntity. rewrite Ht. cbn. unfold drawPath.
  rewrite Hf. cbn [intToString]. change (eqs _ (js "12")) with true. cbv iota.
  unfold forPoints. rewrite Hps.
  change (at_ (ip :: ofNat (length points) :: flat3 points ++ rest) 1)
    with (ofNat (length points)).
  unfold ofNat at 1. rewrite loopCount_ofZ, Nat2Z.id.
  pose proof (read_flat3 [ip; ofNat (length points)] points rest) as H.
  cbn [length app] in H. unfold geometryAdd. do 4 f_equal.
  etransitivity; [|exact H]. apply map_ext. intros i.
  replace (3 + 3 * i)%nat with (2 + 3 * i + 1)%nat by lia.
  replace (4 + 3 * i)%nat with (2 + 3 * i + 2)%nat by lia.
  reflexivity.
Qed.

Lemma drawPath_form12_witness :
  drawEntity {| type := js "106"; attr := decodeAttr (intField 120 12);
                params := ofZ 2 :: ofNat 2
                          :: flat3 [(ofZ 0, ofZ 0, ofZ 0); (ofZ 1, ofZ 2, ofZ 3)]
                          ++ [] |}
  = Some ([Line [(ofZ 0, ofZ 0, ofZ 0); (ofZ 1, ofZ 2, ofZ 3)]], []).
Proof.
  refine (drawPath_form12
            {| type := js "106"; attr := decodeAttr (intField 120 12);
               params := ofZ 2 :: ofNat 2
                         :: flat3 [(ofZ 0, ofZ 0, ofZ 0); (ofZ 1, ofZ 2, ofZ 3)]
                         ++ [] |}
            (ofZ 2) [(ofZ 0, ofZ 0, ofZ 0); (ofZ 1, ofZ 2, ofZ 3)] [] _ _ _);
    reflexivity.
Defined.

(** X18.  The planar paths (type 106) read [N] pairs after the flag, the
    count [N] and a third parameter [zt]: form 40 gives every point the
    height [zt]; form 63 gives every point the height 0 and does not read
    [zt]. *)
Theorem drawPath_planar (entity : Entity) (ip zt : number)
    (points : list Vector2) (rest : list number) :
  type entity = js "106" ->
  params entity = ip :: ofNat (length points) :: zt :: flat2 points ++ rest ->
  (formNumber (attr entity) = Some 40 ->
   drawEntity entity
   = Some ([Line (map (fun '(x, y) => (x, y, zt)) points)], [])) /\
  (formNumber (attr entity) = Some 63 ->
   drawEntity entity
   = Some ([Line (map (fun '(x, y) => (x, y, ofZ 0)) points)], [])).
Proof.
  intros Ht Hps.
  pose proof (fun z => read_flat2 [ip; ofNat (length points); zt] points rest z)
    as H.
  cbn [length app] in H.
  split; intros Hf; unfold drawEntity; rewrite Ht; cbn; unfold drawPath;
    rewrite Hf; cbn [intToString].
  - change (eqs _ (js "12")) with false. change (eqs _ (js "40")) with true.
    cbv iota. unfold forPoints. rewrite Hps.
    change (at_ (ip :: ofNat (length points) :: zt :: flat2 points ++ rest) 1)
      with (ofNat (length points)).
    unfold ofNat at 1. rewrite loopCount_ofZ, Nat2Z.id.
    unfold geometryAdd. do 4 f_equal.
    etransitivity; [|exact (H zt)]. apply map_ext. intros i.
    change (at_ (ip :: ofNat (length points) :: zt :: flat2 points ++ rest) 2)
      with zt.
    replace (4 + 2 * i)%nat with (3 + 2 * i + 1)%nat by lia.
    reflexivity.
  - change (eqs _ (js "12")) with false. change (eqs _ (js "40")) with false.
    change (eqs _ (js "63")) with true.
    cbv iota. unfold forPoints. rewrite Hps.
    change (at_ (ip :: ofNat (length points) :: zt :: flat2 points ++ rest) 1)
      with (ofNat (length points)).
    unfold ofNat at 1. rewrite loopCount_ofZ, Nat2Z.id.
    unfold geometryAdd. do 4 f_equal.
    etransitivity; [|exact (H (ofZ 0))]. apply map_ext. intros i.
    replace (4 + 2 * i)%nat with (3 + 2 * i + 1)%nat by lia.
    reflexivity.
Qed.

Lemma drawPath_planar_witness :
  drawEntity {| type := js "106"; attr := decodeAttr (intField 120 40);
                params := ofZ 1 :: ofNat 2 :: ofZ 7
                          :: flat2 [(ofZ 0, ofZ 0); (ofZ 1, ofZ 2)] ++ [] |}
  = Some ([Line (map (fun '(x, y) => (x, y, ofZ 7))
                   [(ofZ 0, ofZ 0); (ofZ 1, ofZ 2)])], []) /\
  drawEntity {| type := js "106"; attr := decodeAttr (intField 120 63);
                params := ofZ 1 :: ofNat 2 :: ofZ 7
                          :: flat2 [(ofZ 0, ofZ 0); (ofZ 1, ofZ 2)] ++ [] |}
  = Some ([Line (map (fun '(x, y) => (x, y, ofZ 0))
                   [(ofZ 0, ofZ 0); (ofZ 1, ofZ 2)])], []).
Proof.
  split.
  - refine (proj1 (drawPath_planar
              {| type := js "106"; attr := decodeAttr (intField 120 40);
                 params := ofZ 1 :: ofNat 2 :: ofZ 7
                           :: flat2 [(ofZ 0, ofZ 0); (ofZ 1, ofZ 2)] ++ [] |}
              (ofZ 1) (ofZ 7) [(ofZ 0, ofZ 0); (ofZ 1, ofZ 2)] [] _ _) _);
      reflexivity.
  - refine (proj2 (drawPath_planar
              {| type := js "106"; attr := decodeAttr (intField 120 63);
                 params := ofZ 1 :: ofNat 2 :: ofZ 7
                           :: flat2 [(ofZ 0, ofZ 0); (ofZ 1, ofZ 2)] ++ [] |}
              (ofZ 1) (ofZ 7) [(ofZ 0, ofZ 0); (ofZ 1, ofZ 2)] [] _ _) _);
      reflexivity.
Defined.

Lemma andThen_skip_l (a : Draw) : (skip ;; a) = a.
Proof. unfold andThen, skip. now destruct a as [[? ?]|]. Qed.

Lemma andThen_skip_r (a : Draw) : (a ;; skip) = a.
Proof.
  unfold andThen, skip. destruct a as [[? ?]|]; [|reflexivity].
  now rewrite !app_nil_r.
Qed.

Lemma andThen_assoc (a b c : Draw) : ((a ;; b) ;; c) = (a ;; (b ;; c)).
Proof.
  unfold andThen. destruct a as [[? ?]|]; [|reflexivity].
  destruct b as [[? ?]|]; [|reflexivity].
  destruct c as [[? ?]|]; [|reflexivity].
  now rewrite !app_assoc.
Qed.

Lemma drawAll_app_seq (es1 es2 : list Entity) :
  drawAll (es1 ++ es2) = (drawAll es1 ;; drawAll es2).
Proof.
  induction es1 as [|e es1 IH]; cbn [app drawAll].
  - now rewrite andThen_skip_l.
  - now rewrite IH, andThen_assoc.
Qed.

(** X19.  The entities are synthesized one after the other and
    independently: what the entity loop adds and writes for a list of
    entities followed by another is what it adds and writes for the first
    list, followed by what it adds and writes for the second; it does not
    end if one of the two does not. *)
Theorem drawAll_app (es1 es2 : list Entity) :
  drawAll (es1 ++ es2)
  = match drawAll es1, drawAll es2 with
    | Some (added1, logs1), Some (added2, logs2) =>
        Some (added1 ++ added2, logs1 ++ logs2)
    | _, _ => None
    end.
Proof.
  rewrite drawAll_app_seq. unfold andThen.
  destruct (drawAll es1) as [[? ?]|], (drawAll es2) as [[? ?]|]; reflexivity.
Qed.

Ltac switch_case label :=
  match goal with
  | |- context [eqs ?t (js label)] =>
      let E := fresh "E" in
      destruct (eqs t (js label)) eqn:E;
      [apply eqs_eq in E | ]
  end.

Ltac typed :=
  match goal with
  | E : type _ = js _ |- _ => rewrite ?E
  end.

Lemma forPoints_added (bound : number) (f : nat -> Vector3)
    (added : list Object3D) (logs : list Diag) :
  forPoints bound f (fun points => geometryAdd (Line points))
  = Some (added, logs) -> length added = 1%nat.
Proof.
  unfold forPoints, geometryAdd. destruct (loopCount bound); [|discriminate].
  now intros [= <- _].
Qed.

Lemma drawEntity_added (entity : Entity) (added : list Object3D)
    (logs : list Diag) :
  drawEntity entity = Some (added, logs) ->
  length added = if drawsObject (type entity) then 1%nat else 0%nat.
Proof.
  unfold drawEntity, handlers. cbn [switch]. unfold drawsObject.
  switch_case "100"%string.
  { typed. unfold drawCArc, geometryAdd. now intros [= <- _]. }
  switch_case "102"%string.
  { typed. now intros [= <- _]. }
  switch_case "106"%string.
  { typed. cbn [orb]. unfold drawPath.
    destruct (eqs _ (js "12")); [apply forPoints_added|].
    destruct (eqs _ (js "40")); [apply forPoints_added|].
    destruct (eqs _ (js "63")); [apply forPoints_added|].
    now intros [= <- _]. }
  switch_case "108"%string.
  { typed. now intros [= <- _]. }
  switch_case "110"%string.
  { typed. cbn [orb]. unfold drawLine.
    destruct (_ || _); [now intros [= <- _]|].
    destruct (isNaN _); now intros [= <- _]. }
  switch_case "116"%string.
  { typed. now intros [= <- _]. }
  switch_case "120"%string.
  { typed. now intros [= <- _]. }
  switch_case "122"%string.
  { typed. now intros [= <- _]. }
  switch_case "124"%string.
  { typed. unfold drawTransMatrix.
    destruct (eqs _ (js "0")); now intros [= <- _]. }
  switch_case "126"%string.
  { typed. cbn [orb]. unfold drawRBSplineCurve.
    destruct (_ || _); [apply forPoints_added | now intros [= <- _]]. }
  switch_case "128"%string.
  { typed. now intros [= <- _]. }
  switch_case "142"%string.
  { typed. now intros [= <- _]. }
  switch_case "144"%string.
  { typed. now intros [= <- _]. }
  switch_case "212"%string.
  { typed. now intros [= <- _]. }
  switch_case "214"%string.
  { typed. now intros [= <- _]. }
  switch_case "216"%string.
  { typed. now intros [= <- _]. }
  switch_case "314"%string.
  { typed. now intros [= <- _]. }
  switch_case "402"%string.
  { typed. now intros [= <- _]. }
  switch_case "406"%string.
  { typed. now intros [= <- _]. }
  cbn [orb]. now intros [= <- _].
Qed.

Lemma drawAll_added (es : list Entity) (added : list Object3D)
    (logs : list Diag) :
  drawAll es = Some (added, logs) ->
  length added
  = length (filter (fun e => drawsObject (type e) = true) es).
Proof.
  revert added logs; induction es as [|e es IH]; intros added logs.
  - now intros [= <- _].
  - cbn [drawAll]. unfold andThen.
    destruct (drawEntity e) as [[a1 l1]|] eqn:He; [|discriminate].
    destruct (drawAll es) as [[a2 l2]|]; [|discriminate].
    intros [= <- _]. rewrite length_app, (IH a2 l2 eq_refl).
    rewrite (drawEntity_added _ _ _ He).
    destruct (drawsObject (type e)) eqn:Ed.
    + rewrite filter_cons_True by assumption. reflexivity.
    + rewrite filter_cons_False by (rewrite Ed; discriminate). reflexivity.
Qed.

(** X20.  A group that the parse returns has one child for every assembled
    entity whose type is 100, 106, 110, 116 or 126, whatever its form number
    and its parameters, and no child for any other entity. *)
Theorem children_count (data : str) (g : Group) :
  outcome (parse data) = Returned g ->
  length (children g)
  = length (filter (fun e => drawsObject (type e) = true) (entitiesOf data)).
Proof.
  unfold parse, parseIges. rewrite outcome_parseLines. fold (sectionsOf data).
  unfold outcomeOf, parseTerminate. cbn [lineNum_D].
  destruct (inconsistent _ _); [discriminate|]. cbn [entities].
  fold (entitiesOf data).
  destruct (drawAll (entitiesOf data)) as [[added logs]|] eqn:E; [|discriminate].
  intros [= <-]. cbn [children]. now apply (drawAll_added _ _ logs).
Qed.

Lemma children_count_witness :
  length (children {| children := [Line []] |})
  = length (filter (fun e => drawsObject (type e) = true)
              (entitiesOf pathForm0File)).
Proof.
  apply children_count. vm_compute. reflexivity.
Defined.

Lemma switch_default (cases : list (string * Draw)) (dflt : Draw) (t : str) :
  Forall (fun label => t <> js label) (map fst cases) ->
  switch cases dflt t = dflt.
Proof.
  induction cases as [|[label h] cases IH]; [reflexivity|].
  cbn [map fst switch]. intros H. apply Forall_cons in H as [Hne H].
  rewrite (eqs_neq _ _ Hne). now apply IH.
Qed.

(** X21.  An entity of a type without a handler is never fatal: it adds
    nothing and writes one "unknown entity type" line with its type.  An
    entity of a type whose handler is empty (102, 108, 120, 122, 128, 142,
    144, 212, 214, 216, 314, 402, 406) adds nothing and writes nothing,
    whatever its attributes and parameters. *)
Theorem drawEntity_no_object (entity : Entity) :
  (Forall (fun label => type entity <> js label) knownTypes ->
   drawEntity entity = Some ([], [UnknownEntityType (type entity)])) /\
  (Exists (fun label => type entity = js label) idleTypes ->
   drawEntity entity = Some ([], [])).
Proof.
  split.
  - intros H. unfold drawEntity. now rewrite switch_default.
  - intros H. unfold idleTypes in H.
    repeat (apply Exists_cons in H as [H|H];
            [unfold drawEntity; rewrite H; reflexivity|]).
    now apply Exists_nil in H.
Qed.

Lemma drawEntity_no_object_witness :
  drawEntity {| type := js "0"; attr := decodeAttr []; params := [] |}
  = Some ([], [UnknownEntityType (js "0")]) /\
  drawEntity {| type := js "314"; attr := decodeAttr []; params := [ofZ 1] |}
  = Some ([], []).
Proof.
  split.
  - refine (proj1 (drawEntity_no_object
                     {| type := js "0"; attr := decodeAttr []; params := [] |})
              _).
    repeat constructor; discriminate.
  - refine (proj2 (drawEntity_no_object
                     {| type := js "314"; attr := decodeAttr [];
                        params := [ofZ 1] |}) _).
    unfold idleTypes. do 10 apply Exists_cons_tl. apply Exists_cons_hd.
    reflexivity.
Defined.

(** *** Entity assembler *)

Lemma parseDirection_encoded (recs : list DirValues) :
  Forall wellFormed recs ->
  entities (parseDirection newIGES (concat (map encode recs)))
  = map expected recs.
Proof.
  intros H. unfold parseDirection, setEntities. cbn [entities newIGES].
  rewrite app_nil_l, (windows_encoded _ H), map_map.
  apply map_ext_Forall. eapply Forall_impl; [exact H|].
  intros v Hv. unfold directionEntity, expected.
  now rewrite (decodeAttr_encode _ Hv).
Qed.

(** X22.  The assembler joins by position.  When the Directory buffer is
    made of well-formed records and the Parameter buffer of records of
    tokens ended by [";"], the entity of index [i] has the attributes of the
    Directory record of index [i] and the type and parameters of the
    Parameter record of index [i]; the entity-type field and the
    parameter-line pointer of the Directory record are not consulted.  A
    Directory record without a Parameter record keeps the type ["0"] and no
    parameter; a Parameter record without a Directory record is dropped. *)
Theorem entity_assembly (secs : Sections) (recs : list DirValues)
    (records : list (list str)) (tail : str) :
  Forall wellFormed recs ->
  Forall (Forall plainToken) records -> Forall (fun r => r <> []) records ->
  ";"%char ∉ tail ->
  dirSec secs = concat (map encode recs) ->
  paramSec secs = paramBuffer records ++ tail ->
  entities (parseSections secs) = assembled recs records.
Proof.
  intros Hw Hp Hne Htail Hd Hps. rewrite entities_parseSections, Hd, Hps.
  apply list_eq. intros i.
  rewrite parseParameter_lookup, split_paramBuffer, pop_snoc by assumption.
  rewrite parseDirection_encoded by assumption.
  unfold assembled. rewrite list_lookup_imap, !list_lookup_fmap.
  destruct (records !! i) as [tokens|] eqn:E; [|now destruct (recs !! i)].
  cbn [fmap option_fmap option_map].
  change (js ",") with [","%char]. rewrite split_join_pieces.
  - now destruct (recs !! i).
  - eapply Forall_lookup_1 in Hne; eauto.
  - eapply Forall_lookup_1 in Hp; [|exact E].
    eapply Forall_impl; [exact Hp|]. intros ? [? ?]; assumption.
Qed.

Lemma entity_assembly_witness :
  entities (parseSections (sectionsOf pointFile))
  = assembled [pointRecord] [pointTokens (10, 20, 30)].
Proof.
  refine (entity_assembly (sectionsOf pointFile) [pointRecord]
            [pointTokens (10, 20, 30)] [] _ _ _ _ _ _).
  - repeat constructor; try (unfold fits; vm_compute; lia);
      vm_compute; reflexivity.
  - repeat constructor; vm_compute; not_in_concrete.
  - repeat constructor; discriminate.
  - apply not_elem_of_nil.
  - vm_compute; reflexivity.
  - vm_compute; reflexivity.
Defined.










(** X24.  A Directory buffer that stops after one 80-column line still
    gives an entity for that half record: the attributes read from the second
    line (line weight, colour, parameter pointer, form number, subscript) are
    [NaN] and the name is empty.  Its form number being [NaN], such an entity
    is drawn with the default form when its type is 110. *)
Theorem half_record_attributes (item : str) :
  (length item <= 88)%nat ->
  lineWidth (decodeAttr item) = None /\ color (decodeAttr item) = None /\
  paramLine (decodeAttr item) = None /\ formNumber (decodeAttr item) = None /\
  entityName (decodeAttr item) = [] /\ entitySub (decodeAttr item) = None /\
  forall ps : list number,
    drawEntity {| type := js "110"; attr := decodeAttr item; params := ps |}
    = Some ([Line [(at_ ps 0, at_ ps 1, at_ ps 2);
                   (at_ ps 3, at_ ps 4, at_ ps 5)]], []).
Proof.
  intros H.
  assert (Hs : forall a n, (88 <= a)%nat -> substr item a n = []).
  { intros a n Ha. unfold substr. rewrite drop_ge by lia. apply take_nil. }
  assert (Hf : formNumber (decodeAttr item) = None).
  { unfold decodeAttr. cbn [formNumber]. now rewrite Hs by lia. }
  unfold decodeAttr in *.
  cbn [lineWidth color paramLine formNumber entityName entitySub] in *.
  rewrite !Hs by lia. repeat split; reflexivity.
Qed.

Lemma half_record_attributes_witness :
  formNumber (decodeAttr (card "     110       1       0" "D" "1")) = None.
Proof.
  refine (proj1 (proj2 (proj2 (proj2 (half_record_attributes
            (card "     110       1       0" "D" "1") _))))).
  vm_compute. lia.
Defined.

(** *** Runs that end *)























(** A bound that is [Infinity]: the entity loop does not end. *)
Example infinite_bound :
  drawEntity {| type := js "106"; attr := decodeAttr (intField 120 12);
                params := map parseIgesFloat [js "2"; js "Infinity"] |}
  = None.
Proof. vm_compute. reflexivity. Qed.
